(** * Kilo HTTP Media Server: a shallow embedding of [main.py]

    The development follows the source file top to bottom:
    - [Str]: the few [str] methods the server uses ([lower], [split],
      [startswith]);
    - [PurePath]: the lexical half of [pathlib] on POSIX (parsing, [/],
      [str], [name], [relative_to], ordering);
    - [FS]: a tree-shaped filesystem with the queries [exists], [is_dir],
      [is_file], [iterdir] and [resolve];
    - [Server]: the helpers and the four request handlers;
    - [Examples]: small concrete filesystems;
    - [Invariants]: well-formed trees, name order, and the closed forms
      the handlers are compared with.

    Modelling scope.  Strings are byte strings (a name is its UTF-8
    encoding).  [Str.lower] acts on the letters A-Z, which is what
    [str.lower] does on ASCII text; the classifier is also given for an
    arbitrary [lower] ([Classifier]), and the handlers are studied with
    [Str.lower].  The filesystem has no symbolic links, so [resolve] is the
    lexical normalisation that [os.path.realpath] performs when no component
    is a link.  A lookup fails with [ENOENT], [ENOTDIR] or, for a name that
    no directory can hold, [ENAMETOOLONG]; [exists], [is_dir] and [is_file]
    answer [False] on the first two and raise the third, as [pathlib] does.
    Every directory can be searched; enumerating one may raise.  The bound
    [PATH_MAX] on a whole path is not part of the tree model: statements
    that say what a lookup answers carry it as a premise. *)

From Stdlib Require Import String Ascii List Bool Arith Lia Permutation Sorted.
From Stdlib Require OrderedTypeEx.
From Stdlib Require Import NArith DecimalString.
Import ListNotations.
Open Scope string_scope.
Open Scope list_scope.

(* ================================================================== *)
(** ** Strings *)

Module Str.

(** [c.lower()] for one byte. *)
Definition lower_ascii (c : ascii) : ascii :=
  let n := nat_of_ascii c in
  if Nat.leb 65 n && Nat.leb n 90 then ascii_of_nat (n + 32) else c.

(** [s.lower()] *)
Fixpoint lower (s : string) : string :=
  match s with
  | EmptyString => EmptyString
  | String c s' => String (lower_ascii c) (lower s')
  end.

(** [s.split(sep)] for a one-character separator: never the empty list. *)
Fixpoint split (sep : ascii) (s : string) : list string :=
  match s with
  | EmptyString => [EmptyString]
  | String c s' =>
      if Ascii.eqb c sep then EmptyString :: split sep s'
      else match split sep s' with
           | [] => [String c EmptyString]
           | h :: t => String c h :: t
           end
  end.

(** [xs[-1]] on a list of strings (the empty string stands for the
    [IndexError] that [split] can never cause). *)
Definition last_item (xs : list string) : string := last xs EmptyString.

(** [s.startswith(p)] *)
Definition startswith (s p : string) : bool := String.prefix p s.

(** [sep.join(xs)] *)
Definition join (sep : string) (xs : list string) : string :=
  String.concat sep xs.

(** [c in s] *)
Fixpoint contains (c : ascii) (s : string) : bool :=
  match s with
  | EmptyString => false
  | String d s' => Ascii.eqb d c || contains c s'
  end.

(** [x in S] for a set of strings written as a list. *)
Definition mem (x : string) (S : list string) : bool :=
  existsb (String.eqb x) S.

(** [len(s) - len(s.lstrip(c))] *)
Fixpoint count_leading (c : ascii) (s : string) : nat :=
  match s with
  | String d s' => if Ascii.eqb d c then S (count_leading c s') else 0
  | EmptyString => 0
  end.

(** [s * n] *)
Fixpoint repeat (s : string) (n : nat) : string :=
  match n with
  | 0 => EmptyString
  | S n' => s ++ repeat s n'
  end.

(** [s.isascii()] *)
Fixpoint isascii (s : string) : bool :=
  match s with
  | EmptyString => true
  | String c s' => Nat.ltb (nat_of_ascii c) 128 && isascii s'
  end.

(** [str(n)] for a natural number. *)
Definition decimal (n : nat) : string :=
  NilZero.string_of_uint (Nat.to_uint n).

End Str.

(* ================================================================== *)
(** ** Errors *)

(** [OSError]: the three subclasses the handlers can tell apart, and any
    other error by its number. *)
Inductive oserror : Type :=
| PermissionError
| NotADirectoryError
| FileNotFoundError
| OtherOSError (errno : nat).

(** errno 36: a name longer than a directory can hold. *)
Definition ENAMETOOLONG : oserror := OtherOSError 36.

(** Exceptions that travel through the handlers. *)
Inductive exc : Type :=
| HTTPException (status_code : nat) (detail : string)
| OSError (e : oserror) (filename : string)
| ValueError (msg : string).

Inductive result (A : Type) : Type :=
| Ok (a : A)
| Raise (e : exc).
Arguments Ok {A} a.
Arguments Raise {A} e.

Definition bind {A B} (m : result A) (k : A -> result B) : result B :=
  match m with
  | Ok a => k a
  | Raise e => Raise e
  end.

Notation "x <- m ;; k" := (bind m (fun x => k))
  (at level 61, m at next level, right associativity).

(** A [for] loop whose body may raise: the state is threaded left to
    right and the first exception ends the loop. *)
Fixpoint for_each {A S} (xs : list A) (body : S -> A -> result S) (s : S)
  : result S :=
  match xs with
  | [] => Ok s
  | x :: xs' => s' <- body s x ;; for_each xs' body s'
  end.

(** [os.strerror(errno)], for the numbers met here; the C library
    answers [Unknown error n] for a number it has no text for. *)
Definition os_strerror (errno : nat) : string :=
  match errno with
  | 1 => "Operation not permitted"
  | 2 => "No such file or directory"
  | 5 => "Input/output error"
  | 9 => "Bad file descriptor"
  | 12 => "Cannot allocate memory"
  | 13 => "Permission denied"
  | 20 => "Not a directory"
  | 23 => "Too many open files in system"
  | 24 => "Too many open files"
  | 36 => "File name too long"
  | 40 => "Too many levels of symbolic links"
  | n => "Unknown error " ++ Str.decimal n
  end.

Definition errno_of (e : oserror) : nat :=
  match e with
  | PermissionError => 13
  | NotADirectoryError => 20
  | FileNotFoundError => 2
  | OtherOSError n => n
  end.

(** [str(e)] without the file name: [[Errno n] text]. *)
Definition strerror (e : oserror) : string :=
  "[Errno " ++ Str.decimal (errno_of e) ++ "] " ++ os_strerror (errno_of e).

Definition exc_str (e : exc) : string :=
  match e with
  | HTTPException _ d => d
  | OSError e f => strerror e ++ ": '" ++ f ++ "'"
  | ValueError m => m
  end.

(* ================================================================== *)
(** ** pathlib, lexical part *)

Module PurePath.

(** A POSIX path: its root ([""], ["/"] or ["//"]) and its segments. *)
Record Path : Type := mkPath { root : string; parts : list string }.

Definition slash : ascii := "/"%char.

(** Segments of a string: split on ["/"], dropping [""] and ["."]. *)
Definition segments (s : string) : list string :=
  filter (fun x => negb (String.eqb x "") && negb (String.eqb x "."))
         (Str.split slash s).

(** [splitroot]: exactly two leading slashes are kept, any other
    positive number collapses to one. *)
Definition root_of (s : string) : string :=
  match Str.count_leading slash s with
  | 0 => ""
  | 2 => "//"
  | _ => "/"
  end.

(** [Path(s)] *)
Definition parse (s : string) : Path := mkPath (root_of s) (segments s).

(** [p / q] for two paths: an anchored right operand replaces the left. *)
Definition joinpath (p q : Path) : Path :=
  if String.eqb (root q) "" then mkPath (root p) (parts p ++ parts q)
  else q.

(** [p / s] for a string [s]. *)
Definition div (p : Path) (s : string) : Path := joinpath p (parse s).

(** [str(p)] *)
Definition str (p : Path) : string :=
  match root p, parts p with
  | EmptyString, [] => "."
  | r, ps => r ++ Str.join "/" ps
  end.

(** [p.name] *)
Definition name (p : Path) : string := last (parts p) "".

(** A child produced by [iterdir]. *)
Definition child (p : Path) (n : string) : Path :=
  mkPath (root p) (parts p ++ [n]).

Fixpoint strip_prefix (pre l : list string) : option (list string) :=
  match pre, l with
  | [], _ => Some l
  | a :: pre', b :: l' =>
      if String.eqb a b then strip_prefix pre' l' else None
  | _ :: _, [] => None
  end.

(** [p.is_relative_to(other)] *)
Definition is_relative_to (p other : Path) : bool :=
  String.eqb (root p) (root other) &&
  match strip_prefix (parts other) (parts p) with
  | Some _ => true
  | None => false
  end.

(** [p.relative_to(other)]: purely lexical, [ValueError] otherwise. *)
Definition relative_to (p other : Path) : result Path :=
  if String.eqb (root p) (root other) then
    match strip_prefix (parts other) (parts p) with
    | Some rest => Ok (mkPath "" rest)
    | None => Raise (ValueError (str p ++ " is not in the subpath of "
                                       ++ str other))
    end
  else Raise (ValueError (str p ++ " is not in the subpath of "
                                ++ str other)).

(** The list Python compares paths by: the anchor, then the segments. *)
Definition cparts (p : Path) : list string :=
  if String.eqb (root p) "" then parts p else root p :: parts p.

(** [a <= b] on lists of strings, as Python orders lists. *)
Fixpoint list_leb (a b : list string) : bool :=
  match a, b with
  | [], _ => true
  | _ :: _, [] => false
  | x :: a', y :: b' =>
      if String.eqb x y then list_leb a' b' else String.leb x y
  end.

Definition path_leb (p q : Path) : bool := list_leb (cparts p) (cparts q).

Fixpoint insert (x : Path) (l : list Path) : list Path :=
  match l with
  | [] => [x]
  | y :: t => if path_leb x y then x :: y :: t else y :: insert x t
  end.

(** [sorted(paths)]: a stable sort. *)
Definition sorted (l : list Path) : list Path := fold_right insert [] l.

End PurePath.
Export PurePath.

(* ================================================================== *)
(** ** The filesystem *)

Module FS.

(** A node is a regular file, something that is neither a file nor a
    directory (socket, fifo, device), or a directory.  A directory keeps
    its entries in the order the operating system enumerates them, and
    [fault] is the error, if any, that enumerating it raises. *)
#[warning="-register-all"] Inductive node : Type :=
| RegFile
| Special
| Dir (fault : option oserror) (entries : list (string * node)).

Fixpoint find_entry (n : string) (es : list (string * node)) : option node :=
  match es with
  | [] => None
  | (m, c) :: es' => if String.eqb m n then Some c else find_entry n es'
  end.

(** Path resolution as the kernel does it: [anc] is the chain of
    directories above [cur], nearest first. *)
Fixpoint walk (anc : list node) (cur : node) (segs : list string)
  : option (list node * node) :=
  match segs with
  | [] => Some (anc, cur)
  | s :: rest =>
      match cur with
      | Dir _ es =>
          if String.eqb s ".." then
            match anc with
            | [] => walk [] cur rest
            | p :: anc' => walk anc' p rest
            end
          else
            match find_entry s es with
            | Some c => walk (cur :: anc) c rest
            | None => None
            end
      | _ => None
      end
  end.

(** The limits of the kernel: the longest name a directory can hold and
    the length from which a path is refused whole, in bytes. *)
Definition NAME_MAX : nat := 255.
Definition PATH_MAX : nat := 4096.

(** Why a lookup that fails does: below something that is not a directory
    it is [ENOTDIR]; a name that is not in the directory is [ENAMETOOLONG]
    when no directory could hold it and [ENOENT] otherwise. *)
Fixpoint walk_failure (anc : list node) (cur : node) (segs : list string)
  : oserror :=
  match segs with
  | [] => FileNotFoundError
  | s :: rest =>
      match cur with
      | Dir _ es =>
          if String.eqb s ".." then
            match anc with
            | [] => walk_failure [] cur rest
            | p :: anc' => walk_failure anc' p rest
            end
          else
            match find_entry s es with
            | Some c => walk_failure (cur :: anc) c rest
            | None =>
                if Nat.ltb NAME_MAX (String.length s) then ENAMETOOLONG
                else FileNotFoundError
            end
      | _ => NotADirectoryError
      end
  end.

Record filesystem : Type := mkFS { tree : node; cwd : list string }.

(** The segments of [p] from the filesystem root. *)
Definition absolute_parts (fs : filesystem) (p : Path) : list string :=
  if String.eqb (root p) "" then cwd fs ++ parts p else parts p.

(** What a lookup of [p] finds, if it finds something. *)
Definition stat (fs : filesystem) (p : Path) : option node :=
  match walk [] (tree fs) (absolute_parts fs p) with
  | Some (_, n) => Some n
  | None => None
  end.

Definition NUL : ascii := Ascii.zero.

(** What [os.stat] raises when the lookup of [p] fails: [ValueError] for
    a path with a NUL byte, which never reaches the kernel, and the
    kernel's error otherwise. *)
Definition stat_failure (fs : filesystem) (p : Path) : exc :=
  if Str.contains NUL (str p) then ValueError "embedded null byte"
  else OSError (walk_failure [] (tree fs) (absolute_parts fs p)) (str p).

(** [os.stat(p)] *)
Definition os_stat (fs : filesystem) (p : Path) : result node :=
  match stat fs p with
  | Some n => Ok n
  | None => Raise (stat_failure fs p)
  end.

(** [pathlib._ignore_error]: [ENOENT], [ENOTDIR], [EBADF] and [ELOOP]. *)
Definition ignore_error (e : oserror) : bool :=
  match e with
  | FileNotFoundError => true
  | NotADirectoryError => true
  | PermissionError => false
  | OtherOSError n => Nat.eqb n 9 || Nat.eqb n 40
  end.

(** The shape shared by [exists], [is_dir] and [is_file]: [test] on what
    [stat] returns, [False] for an ignored [OSError] and for [ValueError],
    and any other error raised again. *)
Definition answer (st : result node) (test : node -> bool) : result bool :=
  match st with
  | Ok n => Ok (test n)
  | Raise (OSError e f) =>
      if ignore_error e then Ok false else Raise (OSError e f)
  | Raise (ValueError _) => Ok false
  | Raise e => Raise e
  end.

Definition S_ISDIR (n : node) : bool :=
  match n with Dir _ _ => true | _ => false end.

Definition S_ISREG (n : node) : bool :=
  match n with RegFile => true | _ => false end.

(** [p.exists()] *)
Definition exists_ (fs : filesystem) (p : Path) : result bool :=
  answer (os_stat fs p) (fun _ => true).

(** [p.is_dir()] *)
Definition is_dir (fs : filesystem) (p : Path) : result bool :=
  answer (os_stat fs p) S_ISDIR.

(** [p.is_file()] *)
Definition is_file (fs : filesystem) (p : Path) : result bool :=
  answer (os_stat fs p) S_ISREG.

(** [p.iterdir()], all at once. *)
Definition iterdir (fs : filesystem) (p : Path) : result (list Path) :=
  match os_stat fs p with
  | Ok (Dir None es) => Ok (map (fun e => child p (fst e)) es)
  | Ok (Dir (Some e) _) => Raise (OSError e (str p))
  | Ok _ => Raise (OSError NotADirectoryError (str p))
  | Raise e => Raise e
  end.

(** [..] pops, anything else pushes; [acc] is the reversed result. *)
Fixpoint normalize (acc : list string) (segs : list string) : list string :=
  match segs with
  | [] => rev acc
  | s :: rest =>
      if String.eqb s ".." then normalize (tl acc) rest
      else normalize (s :: acc) rest
  end.

(** The path [p.resolve()] returns, when it returns. *)
Definition resolve (fs : filesystem) (p : Path) : Path :=
  mkPath "/" (normalize [] (absolute_parts fs p)).

(** [p.resolve()]: a path with a NUL byte is refused with [ValueError];
    a component that cannot be looked up is kept as it is written. *)
Definition Path_resolve (fs : filesystem) (p : Path) : result Path :=
  if Str.contains NUL (str p) then Raise (ValueError "embedded null byte")
  else Ok (resolve fs p).

End FS.
Export FS.

(* ================================================================== *)
(** ** The server *)

Module Server.

Definition IMG_EXTS : list string := ["jpg"; "jpeg"; "png"; "gif"; "webp"].
Definition VID_EXTS : list string := ["mp4"; "mov"; "avi"; "mkv"; "webm"].

(** What a request can observe: the global [MEDIA_ROOT] (unset or the
    string given on the command line) and the filesystem. *)
Record Env : Type := mkEnv { MEDIA_ROOT : option string; fs : filesystem }.

Definition get_media_root (env : Env) : result Path :=
  match MEDIA_ROOT env with
  | None =>
      Raise (HTTPException 500
        "Media root not configured. Set MEDIA_ROOT environment variable or use --media-root CLI argument.")
  | Some r => Ok (parse r)
  end.

(** [filename.lower().split('.')[-1]] *)
Definition extension (filename : string) : string :=
  Str.last_item (Str.split "."%char (Str.lower filename)).

(** [x == s] for an [Optional[str]] on the left. *)
Definition is_str (x : option string) (s : string) : bool :=
  match x with
  | Some y => String.eqb y s
  | None => false
  end.

Definition is_media_file (filename : string) (media_type : option string)
  : bool :=
  let ext := extension filename in
  if is_str media_type "images" then Str.mem ext IMG_EXTS
  else if is_str media_type "videos" then Str.mem ext VID_EXTS
  else Str.mem ext IMG_EXTS || Str.mem ext VID_EXTS.

Definition get_media_type (filename : string) : option string :=
  let ext := extension filename in
  if Str.mem ext IMG_EXTS then Some "images"
  else if Str.mem ext VID_EXTS then Some "videos"
  else None.

Definition relative_to_media_root (env : Env) (path : Path) : result string :=
  media_root <- get_media_root env ;;
  match relative_to path media_root with
  | Ok r => Ok (str r)
  | Raise (ValueError _) => Ok (str path)
  | Raise e => Raise e
  end.

(** [if path:] *)
Definition truthy (path : option string) : bool :=
  match path with
  | Some s => negb (String.eqb s "")
  | None => false
  end.

(** [path or ""] *)
Definition or_empty (path : option string) : string :=
  match path with
  | Some s => if String.eqb s "" then "" else s
  | None => ""
  end.

(** The [if path: ... else: ...] that opens three of the handlers. *)
Definition target_dir (media_root : Path) (path : option string) : Path :=
  if truthy path then div media_root (or_empty path) else media_root.

(** The outer [try ... except HTTPException: raise / except Exception]. *)
Definition http_errors {A} (m : result A) : result A :=
  match m with
  | Ok a => Ok a
  | Raise (HTTPException c d) => Raise (HTTPException c d)
  | Raise e => Raise (HTTPException 500 (exc_str e))
  end.

(** *** [/api/directories] *)

Record DirectoryEntry : Type := mkDirectoryEntry {
  dir_name : string;
  dir_path : string;
  dir_image_count : nat;
  dir_video_count : nat
}.

Record Listing : Type := mkListing {
  listing_path : string;
  directories : list DirectoryEntry;
  image_count : nat;
  video_count : nat
}.

(** One turn of a counting loop: [(images, videos)] after looking at
    [item]. *)
Definition tally (env : Env) (acc : nat * nat) (item : Path)
  : result (nat * nat) :=
  f <- is_file (fs env) item ;;
  if f && is_media_file (name item) None then
    if is_str (get_media_type (name item)) "images"
    then Ok (S (fst acc), snd acc)
    else Ok (fst acc, S (snd acc))
  else Ok acc.

(** The counting loop inside [try: ... except PermissionError: pass]: a
    [PermissionError] ends it with the counts reached so far. *)
Fixpoint count_loop (env : Env) (sub_items : list Path) (acc : nat * nat)
  : result (nat * nat) :=
  match sub_items with
  | [] => Ok acc
  | sub_item :: rest =>
      match tally env acc sub_item with
      | Ok acc' => count_loop env rest acc'
      | Raise (OSError PermissionError _) => Ok acc
      | Raise e => Raise e
      end
  end.

(** The inner [try: for sub_item in item.iterdir() ... except
    PermissionError: pass]. *)
Definition count_subdirectory (env : Env) (item : Path) : result (nat * nat) :=
  match iterdir (fs env) item with
  | Ok sub_items => count_loop env sub_items (0, 0)
  | Raise (OSError PermissionError _) => Ok (0, 0)
  | Raise e => Raise e
  end.

(** The body of [for item in sorted(target_dir.iterdir())]. *)
Definition list_directories_step (env : Env)
  (st : list DirectoryEntry * (nat * nat)) (item : Path)
  : result (list DirectoryEntry * (nat * nat)) :=
  d <- is_dir (fs env) item ;;
  if d then
    counts <- count_subdirectory env item ;;
    rel <- relative_to_media_root env item ;;
    Ok (fst st ++ [mkDirectoryEntry (name item) rel (fst counts) (snd counts)],
        snd st)
  else
    counts <- tally env (snd st) item ;;
    Ok (fst st, counts).

Definition list_directories (env : Env) (path : option string)
  : result Listing :=
  http_errors (
    media_root <- get_media_root env ;;
    let target := target_dir media_root path in
    e <- exists_ (fs env) target ;;
    if negb e then
      Raise (HTTPException 404 "Directory not found")
    else
      d <- is_dir (fs env) target ;;
      if negb d then
        Raise (HTTPException 400 "Path is not a directory")
      else
        items <- iterdir (fs env) target ;;
        st <- for_each (sorted items) (list_directories_step env)
                       ([], (0, 0)) ;;
        Ok (mkListing (or_empty path) (fst st) (fst (snd st)) (snd (snd st)))).

(** *** [/api/media] *)

Record MediaEntry : Type := mkMediaEntry {
  media_name : string;
  media_path : string
}.

Record MediaListing : Type := mkMediaListing {
  media_listing_path : string;
  images : list MediaEntry;
  videos : list MediaEntry
}.

Definition list_media_step (env : Env) (media_type : option string)
  (st : list MediaEntry * list MediaEntry) (item : Path)
  : result (list MediaEntry * list MediaEntry) :=
  f <- is_file (fs env) item ;;
  if f && is_media_file (name item) media_type then
    let media_t := get_media_type (name item) in
    if is_str media_t "images" then
      rel <- relative_to_media_root env item ;;
      Ok (fst st ++ [mkMediaEntry (name item) rel], snd st)
    else if is_str media_t "videos" then
      rel <- relative_to_media_root env item ;;
      Ok (fst st, snd st ++ [mkMediaEntry (name item) rel])
    else Ok st
  else Ok st.

Definition list_media (env : Env) (path media_type : option string)
  : result MediaListing :=
  http_errors (
    media_root <- get_media_root env ;;
    let target := target_dir media_root path in
    e <- exists_ (fs env) target ;;
    if negb e then
      Raise (HTTPException 404 "Directory not found")
    else
      d <- is_dir (fs env) target ;;
      if negb d then
        Raise (HTTPException 400 "Path is not a directory")
      else
        items <- iterdir (fs env) target ;;
        st <- for_each (sorted items) (list_media_step env media_type)
                       ([], []) ;;
        Ok (mkMediaListing (or_empty path) (fst st) (snd st))).

(** *** [/slideshow/{media_type}] *)

(** [x[i] = v] on a list, inside its bounds. *)
Fixpoint set_item {A} (x : list A) (i : nat) (v : A) : list A :=
  match x, i with
  | [], _ => []
  | _ :: t, 0 => v :: t
  | h :: t, S i' => h :: set_item t i' v
  end.

(** [x[i], x[j] = x[j], x[i]] *)
Definition swap {A} (x : list A) (i j : nat) : list A :=
  match nth_error x i, nth_error x j with
  | Some a, Some b => set_item (set_item x i b) j a
  | _, _ => x
  end.

(** [random.shuffle]: [for i in reversed(range(1, len(x)))], with
    [j = randbelow(i + 1)] taken from the [k]-th draw of the generator. *)
Fixpoint shuffle_loop {A} (rand : nat -> nat) (k i : nat) (x : list A)
  : list A :=
  match i with
  | 0 => x
  | S i' => shuffle_loop rand (S k) i' (swap x i (rand k mod (S i)))
  end.

Definition shuffle {A} (rand : nat -> nat) (x : list A) : list A :=
  shuffle_loop rand 0 (length x - 1) x.

(** The three shapes of markup [generate_slideshow_html] returns:
    [<div class=empty>Directory not found</div>], [<div class=empty>Error:
    ...</div>], and the slideshow document, whose template is filled from
    [media_files] and [media_type] only. *)
Inductive html : Type :=
| DirectoryNotFound
| ErrorMessage (e : exc)
| SlideshowDocument (media_files : list MediaEntry) (media_type : string).

Definition slideshow_step (env : Env) (media_type : string)
  (media_files : list MediaEntry) (item : Path) : result (list MediaEntry) :=
  f <- is_file (fs env) item ;;
  if f && is_media_file (name item) (Some media_type) then
    rel <- relative_to_media_root env item ;;
    Ok (media_files ++ [mkMediaEntry (name item) rel])
  else Ok media_files.

Definition generate_slideshow_html (env : Env) (rand : nat -> nat)
  (media_type path : string) (randomize : bool) : html :=
  match
    media_root <- get_media_root env ;;
    let target := target_dir media_root (Some path) in
    e <- exists_ (fs env) target ;;
    if negb e then Ok DirectoryNotFound
    else
      items <- iterdir (fs env) target ;;
      media_files <- for_each (sorted items) (slideshow_step env media_type) [] ;;
      let media_files :=
        if randomize then shuffle rand media_files else media_files in
      Ok (SlideshowDocument media_files media_type)
  with
  | Ok h => h
  | Raise e => ErrorMessage e
  end.

(** An [HTMLResponse]: status 200 and the markup. *)
Record HTMLResponse : Type := mkHTMLResponse { content : html }.

Definition slideshow_page (env : Env) (rand : nat -> nat)
  (media_type : string) (path : option string) (randomize : bool)
  : result HTMLResponse :=
  if negb (Str.mem media_type ["images"; "videos"]) then
    Raise (HTTPException 404 "Invalid media type")
  else
    Ok (mkHTMLResponse
          (generate_slideshow_html env rand media_type (or_empty path)
                                   randomize)).

(** The media entries a page hands to the viewer. *)
Definition page_media (h : html) : list MediaEntry :=
  match h with
  | SlideshowDocument media_files _ => media_files
  | _ => []
  end.

(** *** [/media/{file_path}] *)

Definition content_types : list (string * string) :=
  [("jpg", "image/jpeg"); ("jpeg", "image/jpeg"); ("png", "image/png");
   ("gif", "image/gif"); ("webp", "image/webp"); ("mp4", "video/mp4");
   ("mov", "video/quicktime"); ("avi", "video/x-msvideo");
   ("mkv", "video/x-matroska"); ("webm", "video/webm")].

(** [d.get(k, default)] *)
Fixpoint dict_get (d : list (string * string)) (k default : string) : string :=
  match d with
  | [] => default
  | (k', v) :: d' => if String.eqb k' k then v else dict_get d' k default
  end.

Record FileResponse : Type := mkFileResponse {
  file : Path;
  content_type : string
}.

Definition serve_media (env : Env) (file_path : string) : result FileResponse :=
  http_errors (
    media_root <- get_media_root env ;;
    let file_path_obj := div media_root file_path in
    file_path_obj <- Path_resolve (fs env) file_path_obj ;;
    media_root_resolved <- Path_resolve (fs env) media_root ;;
    if negb (Str.startswith (str file_path_obj) (str media_root_resolved)) then
      Raise (HTTPException 403 "Access denied")
    else
      e <- exists_ (fs env) file_path_obj ;;
      if negb e then
        Raise (HTTPException 404 "File not found")
      else
        f <- is_file (fs env) file_path_obj ;;
        if negb f then
          Raise (HTTPException 400 "Not a file")
        else
          let ext := extension file_path in
          Ok (mkFileResponse file_path_obj
                (dict_get content_types ext "application/octet-stream"))).

(** The status code a client sees. *)
Definition status {A} (r : result A) : nat :=
  match r with
  | Ok _ => 200
  | Raise (HTTPException c _) => c
  | Raise _ => 500
  end.

End Server.
Export Server.

(* ================================================================== *)
(** ** The classifier, whatever [str.lower] does outside ASCII *)

(** [is_media_file] and [get_media_type] once more, with [str.lower] as a
    parameter: Python lowers by Unicode rules, which only on ASCII text
    are those of [Str.lower].  At [Str.lower] these are the definitions of
    [Server]. *)
Module Classifier.

Section WithLower.

Variable lower : string -> string.

(** [filename.lower().split('.')[-1]] *)
Definition extension (filename : string) : string :=
  Str.last_item (Str.split "."%char (lower filename)).

Definition is_media_file (filename : string) (media_type : option string)
  : bool :=
  let ext := extension filename in
  if is_str media_type "images" then Str.mem ext IMG_EXTS
  else if is_str media_type "videos" then Str.mem ext VID_EXTS
  else Str.mem ext IMG_EXTS || Str.mem ext VID_EXTS.

Definition get_media_type (filename : string) : option string :=
  let ext := extension filename in
  if Str.mem ext IMG_EXTS then Some "images"
  else if Str.mem ext VID_EXTS then Some "videos"
  else None.

End WithLower.

(** What is used of [str.lower]: on ASCII text it lowers the letters A-Z
    and nothing else, and it lowers a string piece by piece from left to
    right, so that an ASCII tail is lowered as ASCII text whatever comes
    before it. *)
Definition lowers_ascii (lower : string -> string) : Prop :=
  (forall s, Str.isascii s = true -> lower s = Str.lower s) /\
  (forall u s, Str.isascii s = true ->
               exists u', lower (u ++ s)%string = (u' ++ Str.lower s)%string).

End Classifier.

(* ================================================================== *)
(** ** Concrete filesystems used by the examples *)

Module Examples.

(** [/root] is the media root; [/root-evil] is a sibling of it. *)
Definition evil_tree : node :=
  Dir None [("root", Dir None [("a.jpg", RegFile)]);
            ("root-evil", Dir None [("x.jpg", RegFile)])].

Definition evil_env : Env :=
  mkEnv (Some "/root") (mkFS evil_tree []).

(** [/media] holds a subdirectory [A] (two jpgs, one mp4, a text file and
    a nested directory) and [b.png]; [/secret] lies outside the media root. *)
Definition album_entries : list (string * node) :=
  [("y.jpg", RegFile); ("z.mp4", RegFile); ("x.jpg", RegFile);
   ("notes.txt", RegFile); ("deep", Dir None [("w.jpg", RegFile)])].

Definition media_root_entries : list (string * node) :=
  [("b.png", RegFile); ("A", Dir None album_entries)].

Definition media_tree : node :=
  Dir None
    [("secret", Dir None [("plan.png", RegFile);
                          ("keys", Dir None [("k.mp4", RegFile)])]);
     ("media", Dir None media_root_entries)].

Definition media_env : Env :=
  mkEnv (Some "/media") (mkFS media_tree []).

(** The same files, enumerated by the operating system in another order. *)
Definition media_tree_reordered : node :=
  Dir None
    [("media",
      Dir None [("A", Dir None [("deep", Dir None [("w.jpg", RegFile)]);
                                ("x.jpg", RegFile); ("notes.txt", RegFile);
                                ("z.mp4", RegFile); ("y.jpg", RegFile)]);
                ("b.png", RegFile)]);
     ("secret", Dir None [("keys", Dir None [("k.mp4", RegFile)]);
                          ("plan.png", RegFile)])].

Definition media_env_reordered : Env :=
  mkEnv (Some "/media") (mkFS media_tree_reordered []).

(** A directory with [a.png] and [b.mp4]. *)
Definition pair_entries : list (string * node) :=
  [("b.mp4", RegFile); ("a.png", RegFile)].

Definition pair_env : Env :=
  mkEnv (Some "/media") (mkFS (Dir None [("media", Dir None pair_entries)]) []).

(** [/media/locked] cannot be enumerated, [/media/broken] fails with an
    I/O error. *)
Definition locked_entries : list (string * node) :=
  [("locked", Dir (Some PermissionError) [("a.jpg", RegFile)]);
   ("open", Dir None [("c.jpg", RegFile)])].

Definition locked_env : Env :=
  mkEnv (Some "/media")
        (mkFS (Dir None [("media", Dir None locked_entries)]) []).

Definition broken_entries : list (string * node) :=
  [("broken", Dir (Some (OtherOSError 5)) [("a.jpg", RegFile)]);
   ("open", Dir None [("c.jpg", RegFile)])].

Definition broken_env : Env :=
  mkEnv (Some "/media")
        (mkFS (Dir None [("media", Dir None broken_entries)]) []).

End Examples.
Export Examples.

(* ================================================================== *)
(** ** Notions the statements below are written with *)

Module Invariants.

(** A directory's names are pairwise distinct and none of them is [..]. *)
Definition names_ok (ns : list string) : Prop :=
  NoDup ns /\ ~ In ".." ns.

(** Every directory of the tree has such names. *)
Fixpoint wf_node (n : node) : Prop :=
  match n with
  | Dir _ es =>
      names_ok (map fst es) /\
      (fix all (l : list (string * node)) : Prop :=
         match l with
         | [] => True
         | e :: t => wf_node (snd e) /\ all t
         end) es
  | _ => True
  end.

Definition wf_fs (fs : filesystem) : Prop := wf_node (tree fs).

(** Insertion of a name, and of an entry by its name. *)
Fixpoint insert_name (x : string) (l : list string) : list string :=
  match l with
  | [] => [x]
  | y :: t => if String.leb x y then x :: y :: t else y :: insert_name x t
  end.

Definition sort_names (l : list string) : list string :=
  fold_right insert_name [] l.

Fixpoint insert_entry (x : string * node) (l : list (string * node))
  : list (string * node) :=
  match l with
  | [] => [x]
  | y :: t =>
      if String.leb (fst x) (fst y) then x :: y :: t else y :: insert_entry x t
  end.

Definition sort_entries (l : list (string * node)) : list (string * node) :=
  fold_right insert_entry [] l.

(** The same tree with every directory enumerated in name order: two
    filesystems with the same [canon] differ only in the order in which
    the operating system lists their directories. *)
Fixpoint canon (n : node) : node :=
  match n with
  | Dir f es => Dir f (sort_entries (map (fun e => (fst e, canon (snd e))) es))
  | RegFile => RegFile
  | Special => Special
  end.

Definition same_files (fs1 fs2 : filesystem) : Prop :=
  canon (tree fs1) = canon (tree fs2) /\ cwd fs1 = cwd fs2.

Definition canon_fs (fs : filesystem) : filesystem :=
  mkFS (canon (tree fs)) (cwd fs).

Definition canon_entry (e : string * node) : string * node :=
  (fst e, canon (snd e)).

(** Every entry's name is ASCII text, on which [Str.lower] is
    [str.lower]. *)
Definition ascii_names (es : list (string * node)) : Prop :=
  Forall (fun e => Str.isascii (fst e) = true) es.

(** The regular files among [es] whose extension is in [exts]. *)
Definition media_in (exts : list string) (es : list (string * node))
  : list (string * node) :=
  filter (fun e => match snd e with
                   | RegFile => Str.mem (extension (fst e)) exts
                   | _ => false
                   end) es.

Definition images_in (es : list (string * node)) : list (string * node) :=
  media_in IMG_EXTS es.

Definition videos_in (es : list (string * node)) : list (string * node) :=
  media_in VID_EXTS es.

(** The regular files among [es] that pass the filter [media_type] and
    are classified as [category]. *)
Definition selected (media_type : option string) (category : string)
  (es : list (string * node)) : list (string * node) :=
  filter (fun e => match snd e with
                   | RegFile =>
                       is_media_file (fst e) media_type &&
                       is_str (get_media_type (fst e)) category
                   | _ => false
                   end) es.

(** The regular files among [es] that pass the filter [media_type]. *)
Definition passing (media_type : option string)
  (es : list (string * node)) : list (string * node) :=
  filter (fun e => match snd e with
                   | RegFile => is_media_file (fst e) media_type
                   | _ => false
                   end) es.

(** The [path] field of an entry named [n] directly inside [dir]. *)
Definition path_field (env : Env) (dir : Path) (n : string) : string :=
  match relative_to_media_root env (child dir n) with
  | Ok s => s
  | Raise _ => str (child dir n)
  end.

(** The counts reported for a subdirectory: those of its direct regular
    files, or zero when enumerating it is refused. *)
Definition subdirectory_counts (fault : option oserror)
  (sub : list (string * node)) : nat * nat :=
  match fault with
  | None => (length (images_in sub), length (videos_in sub))
  | Some _ => (0, 0)
  end.

(** One directory entry per subdirectory among [l], in the order of [l]. *)
Definition directory_entries (env : Env) (dir : Path)
  (l : list (string * node)) : list DirectoryEntry :=
  flat_map (fun e =>
              match snd e with
              | Dir fault sub =>
                  [mkDirectoryEntry (fst e) (path_field env dir (fst e))
                     (fst (subdirectory_counts fault sub))
                     (snd (subdirectory_counts fault sub))]
              | _ => []
              end) l.

(** One media entry per element of [l], in the order of [l]. *)
Definition media_entries (env : Env) (dir : Path)
  (l : list (string * node)) : list MediaEntry :=
  map (fun e => mkMediaEntry (fst e) (path_field env dir (fst e))) l.

(** The error, if any, that enumerating a subdirectory raises and the
    listing does not swallow. *)
Definition fatal_fault (n : node) : option oserror :=
  match n with
  | Dir (Some PermissionError) _ => None
  | Dir (Some e) _ => Some e
  | _ => None
  end.

(** The first entry of [l] with such an error. *)
Fixpoint first_fatal (l : list (string * node)) : option (string * oserror) :=
  match l with
  | [] => None
  | e :: t =>
      match fatal_fault (snd e) with
      | Some err => Some (fst e, err)
      | None => first_fatal t
      end
  end.

(** What a handler answers when the lookup of [p] fails: 404 when
    [exists] answers [False], and 500 with the text of the error when
    [exists] raises it. *)
Definition missing {A} (env : Env) (p : Path) (detail : string) : result A :=
  match exists_ (fs env) p with
  | Raise e => Raise (HTTPException 500 (exc_str e))
  | Ok _ => Raise (HTTPException 404 detail)
  end.

(** What [list_directories] answers for the request path [path], which
    names [dir], when a look at [dir] gives [n]. *)
Definition listing_of (env : Env) (path : option string) (dir : Path)
  (n : option node) : result Listing :=
  match n with
  | None => missing env dir "Directory not found"
  | Some (Dir None es) =>
      match first_fatal (sort_entries es) with
      | Some (m, e) =>
          Raise (HTTPException 500 (exc_str (OSError e (str (child dir m)))))
      | None =>
          Ok (mkListing (or_empty path)
                (directory_entries env dir (sort_entries es))
                (length (images_in es)) (length (videos_in es)))
      end
  | Some (Dir (Some e) _) =>
      Raise (HTTPException 500 (exc_str (OSError e (str dir))))
  | Some _ => Raise (HTTPException 400 "Path is not a directory")
  end.

(** The same for [list_media]. *)
Definition media_listing_of (env : Env) (path media_type : option string)
  (dir : Path) (n : option node) : result MediaListing :=
  match n with
  | None => missing env dir "Directory not found"
  | Some (Dir None es) =>
      Ok (mkMediaListing (or_empty path)
            (media_entries env dir
               (selected media_type "images" (sort_entries es)))
            (media_entries env dir
               (selected media_type "videos" (sort_entries es))))
  | Some (Dir (Some e) _) =>
      Raise (HTTPException 500 (exc_str (OSError e (str dir))))
  | Some _ => Raise (HTTPException 400 "Path is not a directory")
  end.

(** The same for [generate_slideshow_html] without shuffling. *)
Definition slideshow_of (env : Env) (media_type : string) (dir : Path)
  (n : option node) : html :=
  match n with
  | None =>
      match exists_ (fs env) dir with
      | Raise e => ErrorMessage e
      | Ok _ => DirectoryNotFound
      end
  | Some (Dir None es) =>
      SlideshowDocument
        (media_entries env dir (passing (Some media_type) (sort_entries es)))
        media_type
  | Some (Dir (Some e) _) => ErrorMessage (OSError e (str dir))
  | Some _ => ErrorMessage (OSError NotADirectoryError (str dir))
  end.

(** An entry that a lookup of its own name in [es] finds. *)
Definition findable (es : list (string * node)) (e : string * node) : Prop :=
  find_entry (fst e) es = Some (snd e) /\ fst e <> "..".

(** Names in ascending order. *)
Definition ascending (ns : list string) : Prop :=
  StronglySorted (fun a b => String.leb a b = true) ns.

(** What the [path] field [field] of a response entry named [n], found
    directly inside [dir], holds: the result of [relative_to_media_root] on
    the entry, which is the entry's own absolute string form whenever the
    entry's segments do not begin with those of the media root [r]. *)
Definition path_field_ok (env : Env) (r : string) (dir : Path)
  (n field : string) : Prop :=
  let item := child dir n in
  relative_to_media_root env item = Ok field /\
  (is_relative_to item (parse r) = false ->
   field = str item /\ Str.startswith field "/" = true).

End Invariants.
Export Invariants.

(* ================================================================== *)
(** ** Start-up *)

Module Startup.

(** What [main] reads: the environment ([os.environ.get]) and the values
    the command line gives to [--media-root], [--host] and [--port], each
    absent or a string. *)
Record Args : Type := mkArgs {
  flag_media_root : option string;
  flag_host : option string;
  flag_port : option string
}.

(** How [main] ends: an uncaught exception, [parser.error] (a usage
    message and exit status 2), or [uvicorn.run] with the global
    [MEDIA_ROOT] set. *)
Inductive outcome : Type :=
| Uncaught (e : exc)
| UsageError (message : string)
| Serving (media_root host : string) (port : N).

(** [d.get(key, default)], given the result of the lookup: only an absent
    key gives the default. *)
Definition get_default (x : option string) (default : string) : string :=
  match x with
  | Some v => v
  | None => default
  end.

(** [main].  [int] is Python's [int] on strings ([None] for the
    [ValueError] it raises).  The default of [--port] is computed when the
    argument is declared, before the command line is looked at. *)
Definition main (int : string -> option N) (environ : string -> option string)
  (argv : Args) : outcome :=
  let default_media_root := environ "MEDIA_ROOT" in
  let default_host := get_default (environ "HOST") "0.0.0.0" in
  match
    match environ "PORT" with
    | Some s => int s
    | None => Some 8000%N
    end
  with
  | None => Uncaught (ValueError "invalid literal for int() with base 10")
  | Some default_port =>
      let media_root :=
        match flag_media_root argv with
        | Some v => Some v
        | None => default_media_root
        end in
      let host := get_default (flag_host argv) default_host in
      match
        match flag_port argv with
        | Some s => int s
        | None => Some default_port
        end
      with
      | None => UsageError "argument --port: invalid int value"
      | Some port =>
          if truthy media_root then Serving (or_empty media_root) host port
          else UsageError "--media-root is required"
      end
  end.

(** The environment of the handlers once [main] has set the global. *)
Definition env_of (o : outcome) (fs : filesystem) : Env :=
  match o with
  | Serving media_root _ _ => mkEnv (Some media_root) fs
  | _ => mkEnv None fs
  end.

End Startup.
Export Startup.

(* ================================================================== *)
(** ** Notions for navigating by the paths a response returns *)

Module Navigation.

(** A segment that survives printing and parsing: not empty, not [.],
    and without a slash. *)
Definition clean_segment (s : string) : Prop :=
  s <> "" /\ s <> "." /\ Str.contains slash s = false.

(** [trail t acc anc cur]: walking down from the root [t] through the
    names [acc] (last first), none of them [..], leads to [cur], with [anc]
    the directories passed on the way (nearest first). *)
Inductive trail (t : node) : list string -> list node -> node -> Prop :=
| trail_root : trail t [] [] t
| trail_step acc anc f es s c :
    trail t acc anc (Dir f es) -> s <> ".." -> find_entry s es = Some c ->
    trail t (s :: acc) (Dir f es :: anc) c.

(** A directory entry without its [path] field. *)
Definition entry_summary (d : DirectoryEntry) : string * (nat * nat) :=
  (dir_name d, (dir_image_count d, dir_video_count d)).

(** The outcome of a request without the value it carries. *)
Definition outcome_of {A} (r : result A) : option exc :=
  match r with
  | Ok _ => None
  | Raise e => Some e
  end.

End Navigation.
Export Navigation.

(* ================================================================== *)
(** * Properties *)

(** ** Strings and extensions *)

Section StringFacts.

Lemma mem_In (x : string) (S : list string) :
  Str.mem x S = true <-> In x S.
Proof.
  unfold Str.mem. rewrite existsb_exists. split.
  - intros [y [Hy He]]. apply String.eqb_eq in He. now subst.
  - intros H. exists x. split; [assumption | apply String.eqb_refl].
Qed.

Lemma mem_false (x : string) (S : list string) :
  Str.mem x S = false <-> ~ In x S.
Proof.
  rewrite <- mem_In. destruct (Str.mem x S); split; intro H;
    try reflexivity; try discriminate; try (intro; discriminate).
  exfalso. now apply H.
Qed.

Lemma lower_ascii_dot (c : ascii) :
  Ascii.eqb (Str.lower_ascii c) "."%char = Ascii.eqb c "."%char.
Proof.
  destruct c as [[] [] [] [] [] [] [] []]; reflexivity.
Qed.

Lemma lower_ascii_idem (c : ascii) :
  Str.lower_ascii (Str.lower_ascii c) = Str.lower_ascii c.
Proof.
  destruct c as [[] [] [] [] [] [] [] []]; reflexivity.
Qed.

Lemma lower_idem (s : string) : Str.lower (Str.lower s) = Str.lower s.
Proof.
  induction s as [|c s IH]; simpl; [reflexivity|].
  now rewrite lower_ascii_idem, IH.
Qed.

Lemma lower_app (a b : string) :
  Str.lower (a ++ b) = (Str.lower a ++ Str.lower b)%string.
Proof.
  induction a as [|c a IH]; simpl; [reflexivity | now rewrite IH].
Qed.

Lemma lower_contains_dot (s : string) :
  Str.contains "."%char (Str.lower s) = Str.contains "."%char s.
Proof.
  induction s as [|c s IH]; simpl; [reflexivity|].
  now rewrite lower_ascii_dot, IH.
Qed.

Lemma split_not_nil (sep : ascii) (s : string) : Str.split sep s <> [].
Proof.
  destruct s as [|c s]; simpl; [discriminate|].
  destruct (Ascii.eqb c sep); [discriminate|].
  destruct (Str.split sep s); discriminate.
Qed.

Lemma split_no_sep (sep : ascii) (s : string) :
  Str.contains sep s = false -> Str.split sep s = [s].
Proof.
  induction s as [|c s IH]; simpl; [reflexivity|].
  destruct (Ascii.eqb c sep); simpl; [discriminate|].
  intros H. now rewrite (IH H).
Qed.

(** [(a + sep + b).split(sep) == a.split(sep) + b.split(sep)] *)
Lemma split_app (sep : ascii) (a b : string) :
  Str.split sep (a ++ String sep b) = Str.split sep a ++ Str.split sep b.
Proof.
  induction a as [|c a IH]; simpl.
  - now rewrite Ascii.eqb_refl.
  - destruct (Ascii.eqb c sep); [now rewrite IH|].
    rewrite IH. pose proof (split_not_nil sep a) as Hn.
    destruct (Str.split sep a); [contradiction | reflexivity].
Qed.

Lemma last_app_not_nil {A} (l1 l2 : list A) (d : A) :
  l2 <> [] -> last (l1 ++ l2) d = last l2 d.
Proof.
  intros H. induction l1 as [|x l1 IH]; [reflexivity|].
  simpl. rewrite IH. destruct (l1 ++ l2) eqn:E; [|reflexivity].
  apply app_eq_nil in E. destruct E as [_ E]. contradiction.
Qed.

(** The extension is what follows the last dot, lower-cased. *)
Lemma extension_after_last_dot (stem ext : string) :
  Str.contains "."%char ext = false ->
  extension (stem ++ "." ++ ext) = Str.lower ext.
Proof.
  intros H. unfold extension, Str.last_item.
  rewrite lower_app. simpl. rewrite split_app.
  rewrite last_app_not_nil by apply split_not_nil.
  rewrite split_no_sep; [reflexivity|].
  now rewrite lower_contains_dot.
Qed.

Lemma extension_no_dot (filename : string) :
  Str.contains "."%char filename = false ->
  extension filename = Str.lower filename.
Proof.
  intros H. unfold extension, Str.last_item.
  rewrite split_no_sep; [reflexivity|]. now rewrite lower_contains_dot.
Qed.

Lemma extension_lower (f g : string) :
  Str.lower f = Str.lower g -> extension f = extension g.
Proof. unfold extension. now intros ->. Qed.

Lemma append_assoc (u v w : string) :
  ((u ++ v) ++ w = u ++ (v ++ w))%string.
Proof. induction u; simpl; congruence. Qed.

Lemma last_dot_split (n : string) :
  Str.contains "."%char n = true ->
  exists stem ext, n = (stem ++ "." ++ ext)%string /\
                   Str.contains "."%char ext = false.
Proof.
  induction n as [|c n IH]; [discriminate|]. simpl.
  destruct (Str.contains "."%char n) eqn:E.
  - intros _. destruct (IH eq_refl) as (stem & ext & -> & He).
    exists (String c stem), ext. now split.
  - rewrite orb_false_r. intros Hc. apply Ascii.eqb_eq in Hc. subst c.
    exists "", n. now split.
Qed.

(** What precedes a name with a dot does not change its extension. *)
Lemma extension_of_dotted (prefix name : string) :
  Str.contains "."%char name = true ->
  extension (prefix ++ name) = extension name.
Proof.
  intros H. destruct (last_dot_split _ H) as (stem & ext & -> & He).
  rewrite <- append_assoc.
  now rewrite !extension_after_last_dot.
Qed.

Lemma exts_disjoint (x : string) : In x VID_EXTS -> ~ In x IMG_EXTS.
Proof.
  unfold VID_EXTS, IMG_EXTS. simpl.
  intros H1 H2.
  repeat (destruct H1 as [H1|H1]; [subst x; intuition discriminate|]).
  exact H1.
Qed.

End StringFacts.

(** ** The media classifier *)

Section ClassifierFacts.

Variable lower : string -> string.
Hypothesis lower_ok : Classifier.lowers_ascii lower.

Lemma isascii_app (a b : string) :
  Str.isascii (a ++ b) = Str.isascii a && Str.isascii b.
Proof.
  induction a as [|c a IH]; [reflexivity|]. cbn [append Str.isascii].
  now rewrite IH, andb_assoc.
Qed.

Lemma lower_ascii_is_ascii (c : ascii) :
  Nat.ltb (nat_of_ascii (Str.lower_ascii c)) 128 =
  Nat.ltb (nat_of_ascii c) 128.
Proof.
  destruct c as [[] [] [] [] [] [] [] []]; reflexivity.
Qed.

Lemma lower_isascii (s : string) :
  Str.isascii (Str.lower s) = Str.isascii s.
Proof.
  induction s as [|c s IH]; [reflexivity|]. cbn [Str.lower Str.isascii].
  now rewrite lower_ascii_is_ascii, IH.
Qed.

(** The extension of a name with an ASCII tail after its last dot. *)
Lemma extension_ascii_tail (stem ext : string) :
  Str.isascii ext = true -> Str.contains "."%char ext = false ->
  Classifier.extension lower (stem ++ "." ++ ext) = Str.lower ext.
Proof.
  intros Ha Hd. unfold Classifier.extension, Str.last_item.
  destruct (proj2 lower_ok stem ("." ++ ext)%string) as [u' Hu];
    [exact Ha|].
  rewrite Hu. change (Str.lower ("." ++ ext)) with (String "." (Str.lower ext)).
  rewrite split_app, last_app_not_nil by apply split_not_nil.
  rewrite split_no_sep; [reflexivity|]. now rewrite lower_contains_dot.
Qed.

Lemma extension_ascii (f : string) :
  Str.isascii f = true -> Classifier.extension lower f = extension f.
Proof.
  intros Ha. unfold Classifier.extension, extension.
  now rewrite (proj1 lower_ok f Ha).
Qed.

End ClassifierFacts.

(** C3.  Whatever [str.lower] does outside ASCII, the classifier is a
    total function of the text after the last dot of the lowered name (of
    the whole lowered name when it has no dot): it answers ["images"]
    exactly on jpg, jpeg, png, gif, webp, ["videos"] exactly on mp4, mov,
    avi, mkv, webm, and nothing otherwise.  Two names with the same
    lowered form get the same answer.  After any stem, an ASCII extension
    counts lower-cased; two ASCII names that agree up to letter case get
    the same answer; and on ASCII names the classifier is the one the
    handlers are studied with. *)
Theorem classifier_total_case_insensitive (lower : string -> string) :
  Classifier.lowers_ascii lower ->
  let extension' := Classifier.extension lower in
  let get_media_type' := Classifier.get_media_type lower in
  let is_media_file' := Classifier.is_media_file lower in
  (forall f, get_media_type' f = Some "images" <->
             In (extension' f) ["jpg"; "jpeg"; "png"; "gif"; "webp"]) /\
  (forall f, get_media_type' f = Some "videos" <->
             In (extension' f) ["mp4"; "mov"; "avi"; "mkv"; "webm"]) /\
  (forall f, get_media_type' f = None <->
             ~ In (extension' f) ["jpg"; "jpeg"; "png"; "gif"; "webp";
                                  "mp4"; "mov"; "avi"; "mkv"; "webm"]) /\
  (forall f, get_media_type' f = Some "images" \/
             get_media_type' f = Some "videos" \/ get_media_type' f = None) /\
  (forall f, is_media_file' f None = true <-> get_media_type' f <> None) /\
  (forall f g, lower f = lower g ->
               get_media_type' f = get_media_type' g /\
               forall t, is_media_file' f t = is_media_file' g t) /\
  (forall f g, Str.isascii f = true -> Str.isascii g = true ->
               Str.lower f = Str.lower g ->
               get_media_type' f = get_media_type' g /\
               forall t, is_media_file' f t = is_media_file' g t) /\
  (forall stem ext, Str.isascii ext = true ->
                    Str.contains "."%char ext = false ->
                    extension' (stem ++ "." ++ ext)%string = Str.lower ext) /\
  (forall f, Str.isascii f = true -> Str.contains "."%char f = false ->
             extension' f = Str.lower f) /\
  (forall f, Str.isascii f = true ->
             get_media_type' f = get_media_type f /\
             forall t, is_media_file' f t = is_media_file f t) /\
  (forall f a b, lower f = (a ++ "." ++ b)%string ->
                 Str.contains "."%char b = false -> extension' f = b) /\
  (forall f, Str.contains "."%char (lower f) = false ->
             extension' f = lower f) /\
  get_media_type' "A.JPG" = Some "images" /\
  get_media_type' "a.b.mp4" = Some "videos" /\
  get_media_type' "x" = None.
Proof.
  intros Hl extension' get_media_type' is_media_file'.
  assert (Himg : forall f, get_media_type' f = Some "images" <->
                           In (extension' f) IMG_EXTS).
  { intros f. unfold get_media_type', Classifier.get_media_type.
    fold (extension' f). rewrite <- mem_In.
    destruct (Str.mem (extension' f) IMG_EXTS); [tauto|].
    destruct (Str.mem (extension' f) VID_EXTS); split; discriminate. }
  assert (Hvid : forall f, get_media_type' f = Some "videos" <->
                           In (extension' f) VID_EXTS).
  { intros f. unfold get_media_type', Classifier.get_media_type.
    fold (extension' f).
    destruct (Str.mem (extension' f) IMG_EXTS) eqn:Ei.
    - split; [discriminate|]. intros H. apply exts_disjoint in H.
      apply mem_In in Ei. contradiction.
    - rewrite <- mem_In.
      destruct (Str.mem (extension' f) VID_EXTS); split;
        try discriminate; reflexivity. }
  assert (Hnone : forall f, get_media_type' f = None <->
                            ~ In (extension' f) (IMG_EXTS ++ VID_EXTS)).
  { intros f. rewrite in_app_iff.
    unfold get_media_type', Classifier.get_media_type. fold (extension' f).
    rewrite <- !mem_In.
    destruct (Str.mem (extension' f) IMG_EXTS);
      destruct (Str.mem (extension' f) VID_EXTS); split;
      try discriminate; try reflexivity; intros H;
      try (exfalso; apply H; auto; fail);
      intros [?|?]; discriminate. }
  assert (Hsame : forall f g, extension' f = extension' g ->
            get_media_type' f = get_media_type' g /\
            forall t, is_media_file' f t = is_media_file' g t).
  { intros f g H. split.
    - unfold get_media_type', Classifier.get_media_type.
      fold (extension' f) (extension' g). now rewrite H.
    - intros t. unfold is_media_file', Classifier.is_media_file.
      fold (extension' f) (extension' g). now rewrite H. }
  assert (Hascii : forall f, Str.isascii f = true ->
                             extension' f = extension f).
  { intros f. apply (extension_ascii lower Hl). }
  split; [exact Himg|]. split; [exact Hvid|]. split; [exact Hnone|].
  split.
  { intros f. unfold get_media_type', Classifier.get_media_type.
    destruct (Str.mem _ IMG_EXTS); auto.
    destruct (Str.mem _ VID_EXTS); auto. }
  split.
  { intros f. unfold is_media_file', get_media_type',
      Classifier.is_media_file, Classifier.get_media_type, is_str.
    destruct (Str.mem _ IMG_EXTS);
      [split; intros; [congruence|reflexivity]|].
    destruct (Str.mem _ VID_EXTS); simpl;
      split; intros H; congruence. }
  split.
  { intros f g H. apply Hsame. unfold extension', Classifier.extension.
    now rewrite H. }
  split.
  { intros f g Hf Hg H. apply Hsame.
    rewrite (Hascii f Hf), (Hascii g Hg). now apply extension_lower. }
  split; [intros stem ext; apply (extension_ascii_tail lower Hl)|].
  split.
  { intros f Hf Hd. rewrite (Hascii f Hf). now apply extension_no_dot. }
  split.
  { intros f Hf. split.
    - unfold get_media_type', Classifier.get_media_type, get_media_type.
      fold (extension' f). now rewrite (Hascii f Hf).
    - intros t. unfold is_media_file', Classifier.is_media_file,
        is_media_file. fold (extension' f). now rewrite (Hascii f Hf). }
  split.
  { intros f a b Hf Hb. unfold extension', Classifier.extension,
      Str.last_item. rewrite Hf. cbn [append].
    rewrite split_app, last_app_not_nil by apply split_not_nil.
    now rewrite split_no_sep. }
  split.
  { intros f Hf. unfold extension', Classifier.extension, Str.last_item.
    now rewrite split_no_sep. }
  unfold get_media_type', Classifier.get_media_type.
  fold (extension' "A.JPG") (extension' "a.b.mp4") (extension' "x").
  rewrite !Hascii by reflexivity. repeat split; reflexivity.
Qed.

(** ** Paths *)

Section PathFacts.

Lemma strip_prefix_app (pre l : list string) :
  strip_prefix pre (pre ++ l) = Some l.
Proof.
  induction pre as [|a pre IH]; simpl; [reflexivity|].
  now rewrite String.eqb_refl.
Qed.

Lemma strip_prefix_Some (pre l rest : list string) :
  strip_prefix pre l = Some rest -> l = pre ++ rest.
Proof.
  revert l. induction pre as [|a pre IH]; intros l H; simpl in *.
  - now inversion H.
  - destruct l as [|b l]; [discriminate|].
    destruct (String.eqb a b) eqn:E; [|discriminate].
    apply String.eqb_eq in E. subst b. now rewrite (IH _ H).
Qed.

Lemma name_child (p : Path) (n : string) : name (child p n) = n.
Proof. unfold name, child. simpl. apply last_last. Qed.

Lemma root_of_cases (s : string) :
  root_of s = "" \/ root_of s = "/" \/ root_of s = "//".
Proof.
  unfold root_of. destruct (Str.count_leading slash s) as [|[|[|n]]]; auto.
Qed.

(** A path with a root prints with a leading slash. *)
Lemma str_anchored (p : Path) :
  root p = "/" \/ root p = "//" -> Str.startswith (str p) "/" = true.
Proof.
  unfold str, Str.startswith. intros [H|H]; rewrite H; simpl;
    destruct (Str.join "/" (parts p)); reflexivity.
Qed.

Lemma leb_refl (x : string) : String.leb x x = true.
Proof. destruct (String.leb_total x x); assumption. Qed.

Lemma list_leb_siblings (pre : list string) (x y : string) :
  list_leb (pre ++ [x]) (pre ++ [y]) = String.leb x y.
Proof.
  induction pre as [|a pre IH]; simpl.
  - destruct (String.eqb x y) eqn:E; [|reflexivity].
    apply String.eqb_eq in E. subst y. now rewrite leb_refl.
  - now rewrite String.eqb_refl.
Qed.

(** Children of one directory are ordered by their names. *)
Lemma path_leb_children (p : Path) (x y : string) :
  path_leb (child p x) (child p y) = String.leb x y.
Proof.
  unfold path_leb, cparts, child. simpl.
  destruct (String.eqb (root p) "").
  - apply list_leb_siblings.
  - rewrite !app_comm_cons. apply list_leb_siblings.
Qed.

Lemma insert_children (p : Path) (x : string) (l : list string) :
  insert (child p x) (map (child p) l) = map (child p) (insert_name x l).
Proof.
  induction l as [|y l IH]; simpl; [reflexivity|].
  rewrite path_leb_children. destruct (String.leb x y); simpl;
    [reflexivity | now rewrite IH].
Qed.

Lemma sorted_children (p : Path) (l : list string) :
  sorted (map (child p) l) = map (child p) (sort_names l).
Proof.
  induction l as [|x l IH]; [reflexivity|].
  unfold sorted in *. simpl. rewrite IH. apply insert_children.
Qed.

Lemma insert_entry_names (x : string * node) (l : list (string * node)) :
  map fst (insert_entry x l) = insert_name (fst x) (map fst l).
Proof.
  induction l as [|y l IH]; simpl; [reflexivity|].
  destruct (String.leb (fst x) (fst y)); simpl; [reflexivity | now rewrite IH].
Qed.

Lemma sort_entries_names (l : list (string * node)) :
  map fst (sort_entries l) = sort_names (map fst l).
Proof.
  induction l as [|x l IH]; simpl; [reflexivity|].
  rewrite insert_entry_names. now rewrite IH.
Qed.

Lemma insert_entry_perm (x : string * node) (l : list (string * node)) :
  Permutation (insert_entry x l) (x :: l).
Proof.
  induction l as [|y l IH]; simpl; [apply Permutation_refl|].
  destruct (String.leb (fst x) (fst y)); [apply Permutation_refl|].
  eapply Permutation_trans; [apply perm_skip, IH | apply perm_swap].
Qed.

Lemma sort_entries_perm (l : list (string * node)) :
  Permutation (sort_entries l) l.
Proof.
  induction l as [|x l IH]; simpl; [apply Permutation_refl|].
  eapply Permutation_trans; [apply insert_entry_perm | now apply perm_skip].
Qed.

Lemma insert_In (x y : Path) (l : list Path) :
  In y (insert x l) <-> y = x \/ In y l.
Proof.
  induction l as [|z l IH]; simpl; [intuition|].
  destruct (path_leb x z); simpl; [intuition|]. rewrite IH. intuition.
Qed.

Lemma sorted_In (y : Path) (l : list Path) : In y (sorted l) <-> In y l.
Proof.
  induction l as [|x l IH]; [simpl; tauto|].
  unfold sorted in *. simpl. rewrite insert_In, IH. intuition.
Qed.

End PathFacts.

(** ** The filesystem *)

Section FilesystemFacts.

Lemma walk_app (anc : list node) (cur : node) (a b : list string) :
  walk anc cur (a ++ b) =
  match walk anc cur a with
  | Some (anc', n) => walk anc' n b
  | None => None
  end.
Proof.
  revert anc cur. induction a as [|s a IH]; intros anc cur; simpl;
    [reflexivity|].
  destruct cur as [| |f es]; try reflexivity.
  destruct (String.eqb s "..").
  - destruct anc; apply IH.
  - destruct (find_entry s es); [apply IH | reflexivity].
Qed.

Lemma absolute_parts_child (fs : filesystem) (p : Path) (n : string) :
  absolute_parts fs (child p n) = absolute_parts fs p ++ [n].
Proof.
  unfold absolute_parts, child. simpl.
  destruct (String.eqb (root p) ""); [now rewrite app_assoc | reflexivity].
Qed.

(** Looking at a child is looking its name up in the parent. *)
Lemma stat_child (fs : filesystem) (p : Path) (n : string)
      (f : option oserror) (es : list (string * node)) :
  stat fs p = Some (Dir f es) -> n <> ".." ->
  stat fs (child p n) = find_entry n es.
Proof.
  unfold stat. rewrite absolute_parts_child, walk_app.
  destruct (walk [] (tree fs) (absolute_parts fs p)) as [[anc c]|];
    [|discriminate].
  intros H Hn. inversion H; subst c. simpl.
  apply String.eqb_neq in Hn. rewrite Hn.
  destruct (find_entry n es); reflexivity.
Qed.

Lemma find_entry_In (n : string) (c : node) (es : list (string * node)) :
  find_entry n es = Some c -> In (n, c) es.
Proof.
  induction es as [|[m d] es IH]; simpl; [discriminate|].
  destruct (String.eqb m n) eqn:E.
  - apply String.eqb_eq in E. intros H. inversion H. subst. now left.
  - intros H. right. now apply IH.
Qed.

Lemma In_find_entry (n : string) (c : node) (es : list (string * node)) :
  NoDup (map fst es) -> In (n, c) es -> find_entry n es = Some c.
Proof.
  induction es as [|[m d] es IH]; simpl; [contradiction|].
  intros Hnd [H|H].
  - inversion H; subst. now rewrite String.eqb_refl.
  - inversion Hnd as [|? ? Hm Hnd']; subst.
    destruct (String.eqb m n) eqn:E.
    + apply String.eqb_eq in E. subst m. exfalso. apply Hm.
      change n with (fst (n, c)). now apply in_map.
    + now apply IH.
Qed.

Lemma wf_node_Dir (f : option oserror) (es : list (string * node)) :
  wf_node (Dir f es) <->
  names_ok (map fst es) /\ Forall (fun e => wf_node (snd e)) es.
Proof.
  simpl. split; intros [H1 H2]; split; try assumption.
  - induction es as [|e es IH]; [constructor|].
    destruct H2 as [Hc Ht]. constructor; [assumption|].
    apply IH; [|assumption]. destruct H1 as [Hn Hd]. simpl in *.
    inversion Hn; subst. split; [assumption|]. intuition.
  - clear H1. induction H2 as [|e es He Hes IH]; [exact I|].
    split; assumption.
Qed.

Lemma wf_find_entry n c f es :
  wf_node (Dir f es) -> find_entry n es = Some c -> wf_node c.
Proof.
  rewrite wf_node_Dir. intros [_ H] Hf. apply find_entry_In in Hf.
  rewrite Forall_forall in H. exact (H _ Hf).
Qed.

Lemma wf_walk (segs : list string) :
  forall anc cur anc' n,
    Forall wf_node anc -> wf_node cur ->
    walk anc cur segs = Some (anc', n) ->
    Forall wf_node anc' /\ wf_node n.
Proof.
  induction segs as [|s segs IH]; intros anc cur anc' n Ha Hc; simpl.
  - intros H. inversion H; subst. split; assumption.
  - destruct cur as [| |f es]; try discriminate.
    destruct (String.eqb s "..").
    + destruct anc as [|p anc]; [now apply IH|].
      inversion Ha; subst. now apply IH.
    + destruct (find_entry s es) as [c|] eqn:E; [|discriminate].
      apply IH; [now constructor|]. eapply wf_find_entry; eassumption.
Qed.

Lemma wf_stat (fs : filesystem) (p : Path) (n : node) :
  wf_fs fs -> stat fs p = Some n -> wf_node n.
Proof.
  unfold wf_fs, stat. intros Hw.
  destruct (walk [] (tree fs) (absolute_parts fs p)) as [[anc c]|] eqn:E;
    [|discriminate].
  intros H. inversion H; subst c.
  eapply (wf_walk _ [] (tree fs)); [constructor | assumption | exact E].
Qed.

Lemma iterdir_Ok (fs : filesystem) (p : Path) (items : list Path) :
  iterdir fs p = Ok items ->
  exists es, stat fs p = Some (Dir None es) /\
             items = map (child p) (map fst es).
Proof.
  unfold iterdir, os_stat.
  destruct (stat fs p) as [[| |[e|] es]|]; try discriminate.
  intros H. inversion H. exists es. split; [reflexivity|].
  now rewrite map_map.
Qed.

Lemma iterdir_Dir (fs : filesystem) (p : Path) (es : list (string * node)) :
  stat fs p = Some (Dir None es) ->
  iterdir fs p = Ok (map (child p) (map fst es)).
Proof. unfold iterdir, os_stat. intros ->. now rewrite map_map. Qed.

(** What the three queries answer once the lookup has found something. *)
Lemma exists_Some (fs : filesystem) (p : Path) (n : node) :
  stat fs p = Some n -> exists_ fs p = Ok true.
Proof. unfold exists_, os_stat. now intros ->. Qed.

Lemma is_dir_Some (fs : filesystem) (p : Path) (n : node) :
  stat fs p = Some n -> is_dir fs p = Ok (S_ISDIR n).
Proof. unfold is_dir, os_stat. now intros ->. Qed.

Lemma is_file_Some (fs : filesystem) (p : Path) (n : node) :
  stat fs p = Some n -> is_file fs p = Ok (S_ISREG n).
Proof. unfold is_file, os_stat. now intros ->. Qed.

(** A failed lookup is answered [False] or raised, never [True], and the
    three queries agree on it. *)
Lemma answer_Raise (e : exc) (t : node -> bool) :
  answer (Raise e) t = Ok false \/ answer (Raise e) t = Raise e.
Proof.
  destruct e as [c d|e f|m]; cbn; auto. destruct (ignore_error e); auto.
Qed.

Lemma answer_Raise_any (e : exc) (t1 t2 : node -> bool) :
  answer (Raise e) t1 = answer (Raise e) t2.
Proof. destruct e; reflexivity. Qed.

Lemma exists_None (fs : filesystem) (p : Path) :
  stat fs p = None ->
  exists_ fs p = Ok false \/ exists_ fs p = Raise (stat_failure fs p).
Proof. unfold exists_, os_stat. intros ->. apply answer_Raise. Qed.

Lemma is_dir_None (fs : filesystem) (p : Path) :
  stat fs p = None -> is_dir fs p = exists_ fs p.
Proof. unfold is_dir, exists_, os_stat. intros ->. apply answer_Raise_any. Qed.


(** An error that [exists] raises is not an [HTTPException]: the handlers
    turn it into a 500. *)
Lemma exists_Raise (fs : filesystem) (p : Path) (e : exc) :
  exists_ fs p = Raise e ->
  stat fs p = None /\
  forall A, @http_errors A (Raise e) = Raise (HTTPException 500 (exc_str e)).
Proof.
  destruct (stat fs p) as [n|] eqn:E.
  - rewrite (exists_Some _ _ _ E). discriminate.
  - intros H. split; [reflexivity|]. intros A.
    destruct (exists_None _ _ E) as [H'|H']; rewrite H' in H;
      [discriminate|].
    inversion H. unfold stat_failure.
    destruct (Str.contains NUL (str p)); reflexivity.
Qed.



(** [exists] answers [True] exactly when the lookup finds something. *)
Lemma exists_true (fs : filesystem) (p : Path) :
  exists_ fs p = Ok true <-> exists n, stat fs p = Some n.
Proof.
  split.
  - destruct (stat fs p) as [n|] eqn:E; [eauto|].
    destruct (exists_None _ _ E) as [H|H]; rewrite H; discriminate.
  - intros [n H]. now apply exists_Some in H.
Qed.


Lemma is_dir_true (fs : filesystem) (p : Path) :
  is_dir fs p = Ok true <-> exists f es, stat fs p = Some (Dir f es).
Proof.
  split.
  - destruct (stat fs p) as [n|] eqn:E.
    + rewrite (is_dir_Some _ _ _ E). destruct n; cbn; try discriminate. eauto.
    + rewrite (is_dir_None _ _ E).
      destruct (exists_None _ _ E) as [H|H]; rewrite H; discriminate.
  - intros [f [es H]]. now rewrite (is_dir_Some _ _ _ H).
Qed.

End FilesystemFacts.

(** ** Loops *)

Section LoopFacts.

Context {A S : Type}.

(** A loop that returns preserves every invariant its body preserves. *)
Lemma for_each_invariant (P : S -> Prop) (Q : A -> Prop)
      (body : S -> A -> result S) (xs : list A) :
  (forall s x s', P s -> Q x -> body s x = Ok s' -> P s') ->
  Forall Q xs ->
  forall s s', P s -> for_each xs body s = Ok s' -> P s'.
Proof.
  intros Hb HQ. induction HQ as [|x xs Hx Hxs IH]; intros s s' Hs; simpl.
  - intros H. now inversion H; subst.
  - destruct (body s x) as [s1|e] eqn:E; simpl; [|discriminate].
    apply IH. eapply Hb; eassumption.
Qed.

(** A loop whose body never raises returns. *)
Lemma for_each_total (body : S -> A -> result S) (xs : list A) :
  (forall s x, exists s', body s x = Ok s') ->
  forall s, exists s', for_each xs body s = Ok s'.
Proof.
  intros Hb. induction xs as [|x xs IH]; intros s; simpl.
  - now exists s.
  - destruct (Hb s x) as [s1 ->]. simpl. apply IH.
Qed.

Lemma for_each_app (body : S -> A -> result S) (xs ys : list A) (s : S) :
  for_each (xs ++ ys) body s =
  (s' <- for_each xs body s ;; for_each ys body s').
Proof.
  revert s. induction xs as [|x xs IH]; intros s; simpl; [reflexivity|].
  destruct (body s x); simpl; [apply IH | reflexivity].
Qed.

End LoopFacts.

(** ** Handlers, unfolded *)

Section HandlerFacts.

Variable env : Env.
Variable r : string.
Hypothesis configured : MEDIA_ROOT env = Some r.

Lemma get_media_root_configured : get_media_root env = Ok (parse r).
Proof. unfold get_media_root. now rewrite configured. Qed.

Lemma relative_to_media_root_configured (p : Path) :
  relative_to_media_root env p =
  Ok (match relative_to p (parse r) with
      | Ok q => str q
      | Raise _ => str p
      end).
Proof.
  unfold relative_to_media_root. rewrite get_media_root_configured. simpl.
  unfold relative_to. destruct (String.eqb (root p) (root (parse r)));
    [|reflexivity].
  destruct (strip_prefix (parts (parse r)) (parts p)); reflexivity.
Qed.

Lemma path_field_result (dir : Path) (n : string) :
  relative_to_media_root env (child dir n) = Ok (path_field env dir n).
Proof.
  unfold path_field. now rewrite relative_to_media_root_configured.
Qed.

Lemma relative_to_outside (p : Path) :
  is_relative_to p (parse r) = false ->
  relative_to_media_root env p = Ok (str p).
Proof.
  intros H. rewrite relative_to_media_root_configured.
  unfold is_relative_to in H. unfold relative_to.
  destruct (String.eqb (root p) (root (parse r))); [|reflexivity].
  destruct (strip_prefix (parts (parse r)) (parts p)); [discriminate|].
  reflexivity.
Qed.

Lemma relative_to_inside (p : Path) :
  is_relative_to p (parse r) = true ->
  exists rest, parts p = parts (parse r) ++ rest /\
               relative_to_media_root env p = Ok (str (mkPath "" rest)).
Proof.
  intros H. rewrite relative_to_media_root_configured.
  unfold is_relative_to in H. unfold relative_to.
  destruct (String.eqb (root p) (root (parse r))); [|discriminate].
  destruct (strip_prefix (parts (parse r)) (parts p)) as [rest|] eqn:E;
    [|discriminate].
  exists rest. split; [now apply strip_prefix_Some | reflexivity].
Qed.

(** Whatever is listed from a request path and is not under the media
    root has an anchored path: the request path itself was absolute. *)
Lemma outside_is_anchored (path : option string) (n : string) :
  let item := child (target_dir (parse r) path) n in
  is_relative_to item (parse r) = false ->
  root item = "/" \/ root item = "//".
Proof.
  simpl. unfold target_dir, is_relative_to, div, joinpath.
  destruct (truthy path).
  - destruct (String.eqb (root (parse (or_empty path))) "") eqn:E.
    + simpl. rewrite String.eqb_refl, <- app_assoc, strip_prefix_app.
      discriminate.
    + intros _. simpl. apply String.eqb_neq in E.
      destruct (root_of_cases (or_empty path)) as [H|H]; [contradiction|].
      exact H.
  - simpl. rewrite String.eqb_refl, strip_prefix_app. discriminate.
Qed.

Lemma path_field_ok_child (path : option string) (n field : string) :
  relative_to_media_root env (child (target_dir (parse r) path) n) = Ok field ->
  path_field_ok env r (target_dir (parse r) path) n field.
Proof.
  intros H. split; [exact H|]. intros Hout.
  pose proof (relative_to_outside _ Hout) as H'. rewrite H in H'.
  inversion H'. split; [reflexivity|].
  apply str_anchored. now apply outside_is_anchored.
Qed.

(** The shape of a successful [list_media]. *)
Lemma list_media_Ok (path media_type : option string) (resp : MediaListing) :
  list_media env path media_type = Ok resp ->
  exists es st,
    stat (fs env) (target_dir (parse r) path) = Some (Dir None es) /\
    for_each (sorted (map (child (target_dir (parse r) path)) (map fst es)))
             (list_media_step env media_type) ([], []) = Ok st /\
    resp = mkMediaListing (or_empty path) (fst st) (snd st).
Proof.
  unfold list_media. rewrite get_media_root_configured. simpl.
  destruct (exists_ (fs env) _) as [[|]|e]; simpl;
    [|discriminate|destruct e; discriminate].
  destruct (is_dir (fs env) _) as [[|]|e]; simpl;
    [|discriminate|destruct e; discriminate].
  destruct (iterdir (fs env) _) as [items|e] eqn:Ei; simpl;
    [|destruct e; discriminate].
  apply iterdir_Ok in Ei. destruct Ei as [es [Hs ->]].
  destruct (for_each _ _ _) as [st|e] eqn:Ef; simpl;
    [|destruct e; discriminate].
  intros H. inversion H. now exists es, st.
Qed.

Lemma list_directories_Ok (path : option string) (resp : Listing) :
  list_directories env path = Ok resp ->
  exists es st,
    stat (fs env) (target_dir (parse r) path) = Some (Dir None es) /\
    for_each (sorted (map (child (target_dir (parse r) path)) (map fst es)))
             (list_directories_step env) ([], (0, 0)) = Ok st /\
    resp = mkListing (or_empty path) (fst st) (fst (snd st)) (snd (snd st)).
Proof.
  unfold list_directories. rewrite get_media_root_configured. simpl.
  destruct (exists_ (fs env) _) as [[|]|e]; simpl;
    [|discriminate|destruct e; discriminate].
  destruct (is_dir (fs env) _) as [[|]|e]; simpl;
    [|discriminate|destruct e; discriminate].
  destruct (iterdir (fs env) _) as [items|e] eqn:Ei; simpl;
    [|destruct e; discriminate].
  apply iterdir_Ok in Ei. destruct Ei as [es [Hs ->]].
  destruct (for_each _ _ _) as [st|e] eqn:Ef; simpl;
    [|destruct e; discriminate].
  intros H. inversion H. now exists es, st.
Qed.

End HandlerFacts.

(** ** Shuffling *)

Section ShuffleFacts.

Context {A : Type}.

Lemma set_item_In (x v : A) (l : list A) (i : nat) :
  In x (set_item l i v) -> x = v \/ In x l.
Proof.
  revert i. induction l as [|h l IH]; intros i; simpl; [tauto|].
  destruct i as [|i]; simpl; [intuition|].
  intros [H|H]; [auto|]. destruct (IH _ H); auto.
Qed.

Lemma swap_In (x : A) (l : list A) (i j : nat) :
  In x (swap l i j) -> In x l.
Proof.
  unfold swap. destruct (nth_error l i) as [a|] eqn:Ea; [|trivial].
  destruct (nth_error l j) as [b|] eqn:Eb; [|trivial].
  intros H. apply set_item_In in H. destruct H as [->|H].
  - eapply nth_error_In; eassumption.
  - apply set_item_In in H. destruct H as [->|H]; [|assumption].
    eapply nth_error_In; eassumption.
Qed.

Lemma shuffle_In (rand : nat -> nat) (x : A) (l : list A) :
  In x (shuffle rand l) -> In x l.
Proof.
  unfold shuffle. generalize (length l - 1) as i. generalize 0 as k.
  intros k i. revert k l. induction i as [|i IH]; intros k l; simpl;
    [trivial|].
  intros H. apply IH in H. eapply swap_In; eassumption.
Qed.

End ShuffleFacts.

(** ** The [path] fields of responses *)

Section PathFields.

Variable env : Env.
Variable r : string.
Hypothesis configured : MEDIA_ROOT env = Some r.

Let is_child (dir : Path) (item : Path) : Prop :=
  exists n, item = child dir n.

Lemma children_are_children (dir : Path) (ns : list string) :
  Forall (is_child dir) (sorted (map (child dir) ns)).
Proof.
  apply Forall_forall. intros x Hx. apply (proj1 (sorted_In _ _)) in Hx.
  apply in_map_iff in Hx. destruct Hx as [n [<- _]]. now exists n.
Qed.

Lemma list_media_step_fields (path mt : option string) :
  let dir := target_dir (parse r) path in
  let ok := fun e => path_field_ok env r dir (media_name e) (media_path e) in
  forall st item st',
    Forall ok (fst st) /\ Forall ok (snd st) ->
    is_child dir item ->
    list_media_step env mt st item = Ok st' ->
    Forall ok (fst st') /\ Forall ok (snd st').
Proof.
  intros dir ok st item st' [H1 H2] [n ->]. unfold list_media_step.
  rewrite (path_field_result env r configured), name_child.
  assert (Hn : ok (mkMediaEntry n (path_field env dir n))).
  { unfold ok. simpl. apply (path_field_ok_child env r configured).
    apply (path_field_result env r configured). }
  destruct (is_file (fs env) _) as [f|e]; cbn [bind]; [|discriminate].
  destruct (_ && _); [|intros H; inversion H; subst; now split].
  destruct (is_str (get_media_type n) "images"); simpl.
  - intros H; inversion H; subst; simpl. split; [|assumption].
    apply Forall_app. split; [assumption | now constructor].
  - destruct (is_str (get_media_type n) "videos"); simpl;
      intros H; inversion H; subst; simpl; split; try assumption.
    apply Forall_app. split; [assumption | now constructor].
Qed.

Lemma list_directories_step_fields (path : option string) :
  let dir := target_dir (parse r) path in
  let ok := fun e => path_field_ok env r dir (dir_name e) (dir_path e) in
  forall st item st',
    Forall ok (fst st) -> is_child dir item ->
    list_directories_step env st item = Ok st' ->
    Forall ok (fst st').
Proof.
  intros dir ok st item st' H1 [n ->]. unfold list_directories_step.
  rewrite (path_field_result env r configured), name_child.
  destruct (is_dir (fs env) (child dir n)) as [[|]|e]; cbn [bind];
    [| |discriminate].
  - destruct (count_subdirectory env (child dir n)); simpl; [|discriminate].
    intros H; inversion H; subst; simpl.
    apply Forall_app. split; [assumption|]. constructor; [|constructor].
    unfold ok. simpl. apply (path_field_ok_child env r configured).
    apply (path_field_result env r configured).
  - destruct (tally env (snd st) (child dir n)); cbn [bind]; [|discriminate].
    intros H; inversion H; subst; assumption.
Qed.

Lemma slideshow_step_fields (path : option string) (mt : string) :
  let dir := target_dir (parse r) path in
  let ok := fun e => path_field_ok env r dir (media_name e) (media_path e) in
  forall st item st',
    Forall ok st -> is_child dir item ->
    slideshow_step env mt st item = Ok st' ->
    Forall ok st'.
Proof.
  intros dir ok st item st' H1 [n ->]. unfold slideshow_step.
  rewrite (path_field_result env r configured), name_child.
  destruct (is_file (fs env) _) as [f|e]; cbn [bind]; [|discriminate].
  destruct (_ && _); simpl; intros H; inversion H; subst; [|assumption].
  apply Forall_app. split; [assumption|]. constructor; [|constructor].
  unfold ok. simpl. apply (path_field_ok_child env r configured).
  apply (path_field_result env r configured).
Qed.

End PathFields.

(** C10 (amended).  With the media root configured,
    [relative_to_media_root] always returns.  The comparison with the root
    is one of segments as they are written: for a path whose segments
    begin with those of the root it returns the remaining segments, [..]
    among them or not, and for any other path the path's own string,
    unchanged.  Hence a [path] field of a listing or slideshow response is
    root-relative when the entry's path extends the root as written, and
    otherwise it is the entry's absolute path. *)
Theorem relative_to_media_root_total_fallback (env : Env) (r : string) :
  MEDIA_ROOT env = Some r ->
  (forall path, exists s, relative_to_media_root env path = Ok s) /\
  (forall path, is_relative_to path (parse r) = false ->
                relative_to_media_root env path = Ok (str path)) /\
  (forall path, is_relative_to path (parse r) = true ->
                exists rest, parts path = parts (parse r) ++ rest /\
                  relative_to_media_root env path = Ok (str (mkPath "" rest))) /\
  (forall p mt resp, list_media env p mt = Ok resp ->
     Forall (fun e => path_field_ok env r (target_dir (parse r) p)
                                    (media_name e) (media_path e))
            (images resp ++ videos resp)) /\
  (forall p resp, list_directories env p = Ok resp ->
     Forall (fun e => path_field_ok env r (target_dir (parse r) p)
                                    (dir_name e) (dir_path e))
            (directories resp)) /\
  (forall rand mt p randomize,
     Forall (fun e => path_field_ok env r (target_dir (parse r) (Some p))
                                    (media_name e) (media_path e))
            (page_media (generate_slideshow_html env rand mt p randomize))) /\
  (forall rest,
     relative_to_media_root env (mkPath (root (parse r))
                                        (parts (parse r) ++ rest)) =
       Ok (str (mkPath "" rest))).
Proof.
  intros Hr.
  split; [intros path; rewrite (relative_to_media_root_configured env r Hr);
          eauto|].
  split; [intros path; now apply relative_to_outside|].
  split; [intros path; now apply relative_to_inside|].
  split; [|split; [|split]].
  4:{ intros rest. rewrite (relative_to_media_root_configured env r Hr).
      unfold relative_to. cbn [root parts].
      now rewrite String.eqb_refl, strip_prefix_app. }
  - intros p mt resp H.
    destruct (list_media_Ok env r Hr _ _ _ H) as [es [st [Hs [Hf ->]]]].
    simpl. apply Forall_app.
    eapply (for_each_invariant
              (fun st => Forall _ (fst st) /\ Forall _ (snd st)));
      [ | | | exact Hf ];
      [ apply (list_media_step_fields env r Hr p mt)
      | apply children_are_children
      | split; constructor ].
  - intros p resp H.
    destruct (list_directories_Ok env r Hr _ _ H) as [es [st [Hs [Hf ->]]]].
    simpl.
    eapply (for_each_invariant (fun st => Forall _ (fst st)));
      [ | | | exact Hf ];
      [ apply (list_directories_step_fields env r Hr p)
      | apply children_are_children
      | constructor ].
  - intros rand mt p randomize. unfold generate_slideshow_html.
    rewrite (get_media_root_configured env r Hr). simpl.
    destruct (exists_ (fs env) _) as [[|]|e]; simpl;
      [|constructor|constructor].
    destruct (iterdir (fs env) _) as [items|e] eqn:Ei; simpl; [|constructor].
    apply iterdir_Ok in Ei. destruct Ei as [es [Hs ->]].
    destruct (for_each _ _ _) as [st|e] eqn:Ef; simpl; [|constructor].
    assert (Hst : Forall (fun e => path_field_ok env r
                            (target_dir (parse r) (Some p))
                            (media_name e) (media_path e)) st).
    { eapply (for_each_invariant (fun st => Forall _ st));
        [ | | | exact Ef ];
        [ apply (slideshow_step_fields env r Hr (Some p) mt)
        | apply children_are_children
        | constructor ]. }
    destruct randomize; [|assumption].
    apply Forall_forall. intros x Hx. apply shuffle_In in Hx.
    rewrite Forall_forall in Hst. now apply Hst.
Qed.

(** With media root [/media], the path [/media/../secret/plan.png] names
    a file outside the root, and what is returned for it is not its
    absolute string but the root-relative [../secret/plan.png]; that is
    the [path] field of the entry in the listing of [../secret]. *)
Lemma relative_path_field_for_an_entry_outside_the_root :
  is_relative_to (resolve (fs media_env) (parse "/media/../secret/plan.png"))
                 (resolve (fs media_env) (parse "/media")) = false /\
  str (parse "/media/../secret/plan.png") = "/media/../secret/plan.png" /\
  relative_to_media_root media_env (parse "/media/../secret/plan.png") =
    Ok "../secret/plan.png" /\
  list_media media_env (Some "../secret") None =
    Ok (mkMediaListing "../secret"
          [mkMediaEntry "plan.png" "../secret/plan.png"] []).
Proof. repeat split; reflexivity. Qed.

(** ** Counting *)

Section Counting.

Variable env : Env.

Lemma mem_img_not_vid (x : string) :
  Str.mem x IMG_EXTS = true -> Str.mem x VID_EXTS = false.
Proof.
  intros H. apply mem_false. intros Hv. apply mem_In in H.
  exact (exts_disjoint x Hv H).
Qed.

Lemma names_ok_findable (es l : list (string * node)) :
  names_ok (map fst es) -> (forall e, In e l -> In e es) ->
  Forall (findable es) l.
Proof.
  intros [Hnd Hdd] Hl. apply Forall_forall. intros [n c] He. split; simpl.
  - apply In_find_entry; [assumption | now apply Hl].
  - intros ->. apply Hdd. change ".." with (fst ("..", c)).
    apply in_map. now apply Hl.
Qed.

Lemma is_file_child dir f es n c :
  stat (fs env) dir = Some (Dir f es) -> findable es (n, c) ->
  is_file (fs env) (child dir n) =
  Ok (match c with RegFile => true | _ => false end).
Proof.
  intros Hs [Hf Hn]. simpl in *. apply is_file_Some.
  now rewrite (stat_child _ _ _ _ _ Hs Hn), Hf.
Qed.

Lemma is_dir_child dir f es n c :
  stat (fs env) dir = Some (Dir f es) -> findable es (n, c) ->
  is_dir (fs env) (child dir n) =
  Ok (match c with Dir _ _ => true | _ => false end).
Proof.
  intros Hs [Hf Hn]. simpl in *. apply is_dir_Some.
  now rewrite (stat_child _ _ _ _ _ Hs Hn), Hf.
Qed.

(** One turn of the counting loop adds the entry to the right count. *)
Lemma tally_child dir f es n c i v :
  stat (fs env) dir = Some (Dir f es) -> findable es (n, c) ->
  tally env (i, v) (child dir n) =
  Ok (i + length (images_in [(n, c)]), v + length (videos_in [(n, c)])).
Proof.
  intros Hs Hf. unfold tally.
  rewrite (is_file_child _ _ _ _ _ Hs Hf), name_child. cbn [bind].
  unfold images_in, videos_in, media_in, is_media_file, get_media_type.
  cbn [filter fst snd is_str andb].
  destruct c; cbn [length andb]; try (do 2 f_equal; lia).
  destruct (Str.mem (extension n) IMG_EXTS) eqn:Ei.
  - rewrite (mem_img_not_vid _ Ei). cbn. do 2 f_equal; lia.
  - destruct (Str.mem (extension n) VID_EXTS); cbn; do 2 f_equal; lia.
Qed.

Lemma media_in_cons exts e l :
  length (media_in exts (e :: l)) =
  length (media_in exts [e]) + length (media_in exts l).
Proof.
  unfold media_in. simpl.
  destruct (match snd e with RegFile => _ | _ => false end); reflexivity.
Qed.

Lemma tally_fold dir f es l :
  stat (fs env) dir = Some (Dir f es) -> Forall (findable es) l ->
  forall i v,
    count_loop env (map (child dir) (map fst l)) (i, v) =
    Ok (i + length (images_in l), v + length (videos_in l)).
Proof.
  intros Hs Hl. induction Hl as [|[n c] l He Hl IH]; intros i v.
  - cbn. do 2 f_equal; lia.
  - cbn [map count_loop fst]. rewrite (tally_child _ _ _ _ _ _ _ Hs He), IH.
    unfold images_in, videos_in.
    rewrite (media_in_cons IMG_EXTS (n, c) l),
            (media_in_cons VID_EXTS (n, c) l).
    do 2 f_equal; lia.
Qed.

Lemma media_in_perm exts l l' :
  Permutation l l' -> length (media_in exts l) = length (media_in exts l').
Proof.
  intros H. induction H.
  - reflexivity.
  - rewrite (media_in_cons exts x l), (media_in_cons exts x l'). lia.
  - rewrite (media_in_cons exts y (x :: l)), (media_in_cons exts x l),
            (media_in_cons exts x (y :: l)), (media_in_cons exts y l). lia.
  - congruence.
Qed.

(** Counting inside a subdirectory. *)
Lemma count_subdirectory_child dir f es n fault sub :
  stat (fs env) dir = Some (Dir f es) -> findable es (n, Dir fault sub) ->
  names_ok (map fst sub) ->
  count_subdirectory env (child dir n) =
  match fatal_fault (Dir fault sub) with
  | Some err => Raise (OSError err (str (child dir n)))
  | None => Ok (subdirectory_counts fault sub)
  end.
Proof.
  intros Hs [Hf Hn] Hok. simpl in Hf, Hn.
  assert (Hc : stat (fs env) (child dir n) = Some (Dir fault sub)).
  { now rewrite (stat_child _ _ _ _ _ Hs Hn). }
  unfold count_subdirectory, iterdir, os_stat. rewrite Hc.
  destruct fault as [[| | |k]|]; try reflexivity.
  rewrite <- map_map.
  rewrite (tally_fold _ _ _ sub Hc); [reflexivity|].
  apply names_ok_findable; auto.
Qed.

End Counting.

(** ** The handlers in closed form *)

Section ClosedForms.

Variable env : Env.
Variable r : string.
Hypothesis configured : MEDIA_ROOT env = Some r.
Hypothesis wf : wf_fs (fs env).

Variable dir : Path.
Variable es : list (string * node).
Hypothesis dir_listing : stat (fs env) dir = Some (Dir None es).

Lemma dir_names_ok : names_ok (map fst es).
Proof.
  pose proof (wf_stat _ _ _ wf dir_listing) as H.
  apply (proj1 (wf_node_Dir _ _)) in H. tauto.
Qed.

Lemma subdir_names_ok n fault sub :
  In (n, Dir fault sub) es -> names_ok (map fst sub).
Proof.
  intros Hin. pose proof (wf_stat _ _ _ wf dir_listing) as H.
  apply (proj1 (wf_node_Dir _ _)) in H. destruct H as [_ H].
  rewrite Forall_forall in H. specialize (H _ Hin). cbn [snd] in H.
  apply (proj1 (wf_node_Dir _ _)) in H. tauto.
Qed.

Lemma sorted_findable : Forall (findable es) (sort_entries es).
Proof.
  apply names_ok_findable; [apply dir_names_ok|].
  intros e. apply Permutation_in, sort_entries_perm.
Qed.

Lemma sorted_items :
  sorted (map (child dir) (map fst es)) =
  map (child dir) (map fst (sort_entries es)).
Proof. now rewrite sorted_children, sort_entries_names. Qed.

(** The loop of [list_directories] over entries of [dir]. *)
Lemma list_directories_loop (l : list (string * node)) :
  Forall (findable es) l ->
  forall ds i v,
    for_each (map (child dir) (map fst l)) (list_directories_step env)
             (ds, (i, v)) =
    match first_fatal l with
    | Some (m, e) => Raise (OSError e (str (child dir m)))
    | None =>
        Ok (ds ++ directory_entries env dir l,
            (i + length (images_in l), v + length (videos_in l)))
    end.
Proof.
  intros Hl. induction Hl as [|[n c] l He Hl IH]; intros ds i v.
  - cbn. now rewrite app_nil_r, !Nat.add_0_r.
  - cbn [map for_each fst first_fatal snd].
    unfold list_directories_step at 1.
    rewrite (is_dir_child env _ _ _ _ _ dir_listing He).
    destruct c as [| |fault sub].
    + cbn [fst snd bind fatal_fault].
      rewrite (tally_child env _ _ _ _ _ _ _ dir_listing He). cbn [bind].
      rewrite IH.
      destruct (first_fatal l) as [[m e]|]; [reflexivity|].
      unfold images_in, videos_in.
      rewrite (media_in_cons IMG_EXTS (n, RegFile) l),
              (media_in_cons VID_EXTS (n, RegFile) l).
      cbn [directory_entries flat_map snd app].
      do 3 f_equal; lia.
    + cbn [fst snd bind fatal_fault].
      rewrite (tally_child env _ _ _ _ _ _ _ dir_listing He). cbn [bind].
      rewrite IH.
      destruct (first_fatal l) as [[m e]|]; [reflexivity|].
      unfold images_in, videos_in.
      rewrite (media_in_cons IMG_EXTS (n, Special) l),
              (media_in_cons VID_EXTS (n, Special) l).
      cbn [directory_entries flat_map snd app].
      do 3 f_equal; lia.
    + assert (Hin : In (n, Dir fault sub) es).
      { destruct He as [He _]. now apply find_entry_In in He. }
      cbn [bind].
      rewrite (count_subdirectory_child env _ _ _ _ _ _ dir_listing He
                 (subdir_names_ok _ _ _ Hin)).
      destruct (fatal_fault (Dir fault sub)) as [err|]; [reflexivity|].
      cbn [bind]. rewrite (path_field_result env r configured), name_child.
      cbn [bind fst snd]. rewrite IH.
      destruct (first_fatal l) as [[m e]|]; [reflexivity|].
      unfold images_in, videos_in.
      rewrite (media_in_cons IMG_EXTS (n, Dir fault sub) l),
              (media_in_cons VID_EXTS (n, Dir fault sub) l).
      cbn [directory_entries flat_map snd fst app media_in filter length].
      rewrite <- app_assoc. reflexivity.
Qed.

(** The loop of [list_media]. *)
Lemma list_media_loop (media_type : option string)
      (l : list (string * node)) :
  Forall (findable es) l ->
  forall a b,
    for_each (map (child dir) (map fst l)) (list_media_step env media_type)
             (a, b) =
    Ok (a ++ media_entries env dir (selected media_type "images" l),
        b ++ media_entries env dir (selected media_type "videos" l)).
Proof.
  intros Hl. induction Hl as [|[n c] l He Hl IH]; intros a b.
  - cbn. now rewrite !app_nil_r.
  - cbn [map for_each fst]. unfold list_media_step at 1.
    rewrite (is_file_child env _ _ _ _ _ dir_listing He), name_child.
    rewrite (path_field_result env r configured).
    unfold selected. cbn [filter fst snd].
    destruct c as [| |fault sub]; cbn [andb bind]; try apply IH.
    destruct (is_media_file n media_type); cbn [andb bind]; [|apply IH].
    unfold get_media_type.
    destruct (Str.mem (extension n) IMG_EXTS).
    + cbn. rewrite IH. unfold selected.
      now rewrite <- app_assoc.
    + destruct (Str.mem (extension n) VID_EXTS).
      * cbn. rewrite IH. unfold selected. now rewrite <- app_assoc.
      * cbn. apply IH.
Qed.

(** The loop of [generate_slideshow_html]. *)
Lemma slideshow_loop (media_type : string) (l : list (string * node)) :
  Forall (findable es) l ->
  forall a,
    for_each (map (child dir) (map fst l)) (slideshow_step env media_type) a =
    Ok (a ++ media_entries env dir (passing (Some media_type) l)).
Proof.
  intros Hl. induction Hl as [|[n c] l He Hl IH]; intros a.
  - cbn. now rewrite app_nil_r.
  - cbn [map for_each fst]. unfold slideshow_step at 1.
    rewrite (is_file_child env _ _ _ _ _ dir_listing He), name_child.
    rewrite (path_field_result env r configured).
    unfold passing. cbn [filter fst snd].
    destruct c as [| |fault sub]; cbn [andb bind]; try apply IH.
    destruct (is_media_file n (Some media_type)); cbn [andb bind];
      [|apply IH].
    rewrite IH. unfold passing. cbn. now rewrite <- app_assoc.
Qed.

End ClosedForms.

Section ClosedHandlers.

Variable env : Env.
Variable r : string.
Hypothesis configured : MEDIA_ROOT env = Some r.
Hypothesis wf : wf_fs (fs env).

(** The two tests that open a listing handler, on a path whose lookup
    fails. *)
Lemma missing_closed {A} (dir : Path) (detail : string) (k : result A) :
  stat (fs env) dir = None ->
  http_errors (e <- exists_ (fs env) dir ;;
               if negb e then Raise (HTTPException 404 detail) else k) =
  missing env dir detail.
Proof.
  intros Hs. unfold missing.
  destruct (exists_ (fs env) dir) as [[|]|e] eqn:He; cbn [bind negb].
  - apply exists_true in He. destruct He as [n He]. congruence.
  - reflexivity.
  - apply (exists_Raise _ _ _ He).
Qed.

Lemma list_directories_closed (path : option string) :
  list_directories env path =
  listing_of env path (target_dir (parse r) path)
             (stat (fs env) (target_dir (parse r) path)).
Proof.
  unfold list_directories. rewrite (get_media_root_configured env r configured).
  cbn [bind]. set (dir := target_dir (parse r) path).
  destruct (stat (fs env) dir) as [n|] eqn:Hs; [|now apply missing_closed].
  rewrite (exists_Some _ _ _ Hs), (is_dir_Some _ _ _ Hs). cbn [bind negb].
  destruct n as [| |[e|] es]; cbn [S_ISDIR negb]; try reflexivity.
  - unfold iterdir, os_stat. rewrite Hs. reflexivity.
  - rewrite (iterdir_Dir _ _ _ Hs). cbn [bind].
    rewrite (sorted_items dir es).
    rewrite (list_directories_loop env r configured wf dir es Hs _
               (sorted_findable env wf dir es Hs)).
    unfold listing_of.
    destruct (first_fatal (sort_entries es)) as [[m e]|]; [reflexivity|].
    cbn. unfold images_in, videos_in.
    rewrite (media_in_perm IMG_EXTS _ _ (sort_entries_perm es)),
            (media_in_perm VID_EXTS _ _ (sort_entries_perm es)).
    reflexivity.
Qed.

Lemma list_media_closed (path media_type : option string) :
  list_media env path media_type =
  media_listing_of env path media_type (target_dir (parse r) path)
                   (stat (fs env) (target_dir (parse r) path)).
Proof.
  unfold list_media. rewrite (get_media_root_configured env r configured).
  cbn [bind]. set (dir := target_dir (parse r) path).
  destruct (stat (fs env) dir) as [n|] eqn:Hs; [|now apply missing_closed].
  rewrite (exists_Some _ _ _ Hs), (is_dir_Some _ _ _ Hs). cbn [bind negb].
  destruct n as [| |[e|] es]; cbn [S_ISDIR negb]; try reflexivity.
  - unfold iterdir, os_stat. rewrite Hs. reflexivity.
  - rewrite (iterdir_Dir _ _ _ Hs). cbn [bind].
    rewrite (sorted_items dir es).
    rewrite (list_media_loop env r configured dir es Hs _ _
               (sorted_findable env wf dir es Hs)).
    reflexivity.
Qed.

Lemma target_dir_or_empty (root : Path) (path : option string) :
  target_dir root (Some (or_empty path)) = target_dir root path.
Proof.
  unfold target_dir, truthy, or_empty.
  destruct path as [s|]; [|reflexivity].
  destruct (String.eqb s "") eqn:E; [reflexivity|]. now rewrite E.
Qed.

Lemma generate_slideshow_html_closed (rand : nat -> nat)
      (media_type path : string) (randomize : bool) :
  generate_slideshow_html env rand media_type path randomize =
  match slideshow_of env media_type (target_dir (parse r) (Some path))
                     (stat (fs env) (target_dir (parse r) (Some path))) with
  | SlideshowDocument media_files t =>
      SlideshowDocument
        (if randomize then shuffle rand media_files else media_files) t
  | h => h
  end.
Proof.
  unfold generate_slideshow_html.
  rewrite (get_media_root_configured env r configured).
  cbn [bind]. set (dir := target_dir (parse r) (Some path)).
  destruct (stat (fs env) dir) as [n|] eqn:Hs.
  - rewrite (exists_Some _ _ _ Hs). cbn [bind negb].
    destruct n as [| |[e|] es].
    + unfold iterdir, os_stat. rewrite Hs. reflexivity.
    + unfold iterdir, os_stat. rewrite Hs. reflexivity.
    + unfold iterdir, os_stat. rewrite Hs. reflexivity.
    + rewrite (iterdir_Dir _ _ _ Hs). cbn [bind].
      rewrite (sorted_items dir es).
      rewrite (slideshow_loop env r configured dir es Hs _ _
                 (sorted_findable env wf dir es Hs)).
      reflexivity.
  - cbn [slideshow_of].
    destruct (exists_ (fs env) dir) as [[|]|e] eqn:He; try reflexivity.
    apply exists_true in He. destruct He as [n He]. congruence.
Qed.

End ClosedHandlers.

(** The cases of a closed form that give no listing. *)
Ltac no_listing :=
  try discriminate;
  try (cbv beta iota delta [listing_of media_listing_of missing];
       destruct (exists_ _ _); discriminate).

(** ** Selections *)

Section Selections.

Lemma is_media_file_images n :
  is_media_file n (Some "images") = Str.mem (extension n) IMG_EXTS.
Proof. reflexivity. Qed.

Lemma is_media_file_videos n :
  is_media_file n (Some "videos") = Str.mem (extension n) VID_EXTS.
Proof. reflexivity. Qed.

Lemma classified_images n :
  is_str (get_media_type n) "images" = Str.mem (extension n) IMG_EXTS.
Proof.
  unfold get_media_type. destruct (Str.mem (extension n) IMG_EXTS);
    [reflexivity|].
  destruct (Str.mem (extension n) VID_EXTS); reflexivity.
Qed.

Lemma classified_videos n :
  is_str (get_media_type n) "videos" =
  negb (Str.mem (extension n) IMG_EXTS) && Str.mem (extension n) VID_EXTS.
Proof.
  unfold get_media_type. destruct (Str.mem (extension n) IMG_EXTS);
    [reflexivity|].
  destruct (Str.mem (extension n) VID_EXTS); reflexivity.
Qed.

Lemma filter_none {A} (f : A -> bool) (l : list A) :
  (forall a, f a = false) -> filter f l = [].
Proof.
  intros H. induction l as [|a l IH]; simpl; [reflexivity|].
  now rewrite H.
Qed.

Lemma selected_images_images l :
  selected (Some "images") "images" l = images_in l.
Proof.
  apply filter_ext. intros [n c]. cbn [fst snd]. destruct c; try reflexivity.
  rewrite is_media_file_images, classified_images. apply andb_diag.
Qed.

Lemma selected_images_videos l : selected (Some "images") "videos" l = [].
Proof.
  apply filter_none. intros [n c]. cbn [fst snd]. destruct c; try reflexivity.
  rewrite is_media_file_images, classified_videos.
  destruct (Str.mem (extension n) IMG_EXTS); reflexivity.
Qed.

Lemma selected_videos_videos l :
  selected (Some "videos") "videos" l = videos_in l.
Proof.
  apply filter_ext. intros [n c]. cbn [fst snd]. destruct c; try reflexivity.
  rewrite is_media_file_videos, classified_videos.
  destruct (Str.mem (extension n) IMG_EXTS) eqn:Ei.
  - now rewrite (mem_img_not_vid _ Ei).
  - cbn [negb andb]. apply andb_diag.
Qed.

Lemma selected_videos_images l : selected (Some "videos") "images" l = [].
Proof.
  apply filter_none. intros [n c]. cbn [fst snd]. destruct c; try reflexivity.
  rewrite is_media_file_videos, classified_images.
  destruct (Str.mem (extension n) IMG_EXTS) eqn:Ei.
  - now rewrite (mem_img_not_vid _ Ei).
  - apply andb_false_r.
Qed.

Lemma first_fatal_None l :
  Forall (fun e => fatal_fault (snd e) = None) l -> first_fatal l = None.
Proof.
  intros H. induction H as [|e l He Hl IH]; simpl; [reflexivity|].
  now rewrite He.
Qed.

Lemma first_fatal_Some l e err :
  In e l -> fatal_fault (snd e) = Some err ->
  exists m err', first_fatal l = Some (m, err').
Proof.
  induction l as [|x l IH]; simpl; [contradiction|].
  intros [->|Hin] He.
  - rewrite He. eauto.
  - destruct (fatal_fault (snd x)); eauto.
Qed.

Lemma first_fatal_not_permission l m err :
  first_fatal l = Some (m, err) ->
  err <> PermissionError /\ exists sub, In (m, Dir (Some err) sub) l.
Proof.
  induction l as [|[n c] l IH]; simpl; [discriminate|].
  assert (Hrec : first_fatal l = Some (m, err) ->
                 err <> PermissionError /\
                 exists sub, (n, c) = (m, Dir (Some err) sub) \/
                             In (m, Dir (Some err) sub) l).
  { intros H. destruct (IH H) as [H1 [sub H2]]. split; [assumption|].
    exists sub. now right. }
  destruct c as [| |[e|] sub]; simpl; try exact Hrec.
  destruct e; try exact Hrec; intros H; inversion H; subst;
    (split; [discriminate | exists sub; now left]).
Qed.

Lemma directory_entries_names env dir l :
  map dir_name (directory_entries env dir l) =
  map fst (filter (fun e => match snd e with Dir _ _ => true | _ => false end)
                  l).
Proof.
  induction l as [|[n c] l IH]; [reflexivity|].
  unfold directory_entries in *. cbn [flat_map fst snd filter].
  destruct c; cbn [app map fst]; now rewrite IH.
Qed.

Lemma directory_entries_In env dir l n fault sub :
  In (n, Dir fault sub) l ->
  In (mkDirectoryEntry n (path_field env dir n)
        (fst (subdirectory_counts fault sub))
        (snd (subdirectory_counts fault sub)))
     (directory_entries env dir l).
Proof.
  intros H. unfold directory_entries. apply in_flat_map.
  exists (n, Dir fault sub). split; [assumption | now left].
Qed.

End Selections.

(** ** Directory listings *)

(** C4.  Listing an existing directory whose subdirectories can all be
    enumerated succeeds.  Its [directories] are exactly the immediate
    subdirectories, in name order, each with the numbers of image and video
    files directly inside it (nothing deeper is looked at); its own counts
    are those of the image and video files directly inside the requested
    directory. *)
Theorem list_directories_one_level_counts
        (env : Env) (r : string) (path : option string)
        (es : list (string * node)) :
  let dir := target_dir (parse r) path in
  MEDIA_ROOT env = Some r ->
  wf_fs (fs env) ->
  stat (fs env) dir = Some (Dir None es) ->
  Forall (fun e => forall fault sub, snd e = Dir fault sub -> fault = None)
         es ->
  exists ds,
    list_directories env path =
      Ok (mkListing (or_empty path) ds
                    (length (images_in es)) (length (videos_in es))) /\
    map dir_name ds =
      map fst (filter (fun e => match snd e with
                                | Dir _ _ => true
                                | _ => false
                                end) (sort_entries es)) /\
    Forall (fun d => exists fault sub,
                find_entry (dir_name d) es = Some (Dir fault sub) /\
                dir_image_count d = length (images_in sub) /\
                dir_video_count d = length (videos_in sub)) ds.
Proof.
  intros dir Hr Hw Hs Hf.
  exists (directory_entries env dir (sort_entries es)).
  rewrite (list_directories_closed env r Hr Hw). fold dir. rewrite Hs.
  unfold listing_of.
  assert (Hsorted : forall e, In e (sort_entries es) -> In e es).
  { intros e. apply Permutation_in, sort_entries_perm. }
  rewrite first_fatal_None.
  2:{ apply Forall_forall. intros [n c] Hin. apply Hsorted in Hin.
      rewrite Forall_forall in Hf. specialize (Hf _ Hin). cbn [snd] in *.
      destruct c as [| |fault sub]; try reflexivity.
      now rewrite (Hf fault sub eq_refl). }
  split; [reflexivity|]. split; [apply directory_entries_names|].
  apply Forall_forall. intros d Hd. unfold directory_entries in Hd.
  apply in_flat_map in Hd. destruct Hd as [[n c] [Hin Hd]].
  cbn [fst snd] in Hd. destruct c as [| |fault sub]; try contradiction.
  destruct Hd as [<-|[]]. cbn [dir_name dir_image_count dir_video_count].
  apply Hsorted in Hin. exists fault, sub.
  split.
  - apply In_find_entry; [|assumption].
    apply (dir_names_ok env Hw dir es Hs).
  - rewrite Forall_forall in Hf. specialize (Hf _ Hin fault sub eq_refl).
    subst fault. split; reflexivity.
Qed.

(** C5.  While the counts of a listing are gathered, a subdirectory whose
    enumeration raises [PermissionError] is reported with zero counts and
    the listing still succeeds; a subdirectory whose enumeration raises
    any other error makes the whole request fail with status 500. *)
Theorem list_directories_swallows_permission_error_only
        (env : Env) (r : string) (path : option string)
        (es : list (string * node)) :
  let dir := target_dir (parse r) path in
  MEDIA_ROOT env = Some r ->
  wf_fs (fs env) ->
  stat (fs env) dir = Some (Dir None es) ->
  (Forall (fun e => fatal_fault (snd e) = None) es ->
   exists ds,
     list_directories env path =
       Ok (mkListing (or_empty path) ds
                     (length (images_in es)) (length (videos_in es))) /\
     forall n sub,
       In (n, Dir (Some PermissionError) sub) es ->
       In (mkDirectoryEntry n (path_field env dir n) 0 0) ds) /\
  (forall n sub err,
     In (n, Dir (Some err) sub) es -> err <> PermissionError ->
     exists m e sub',
       In (m, Dir (Some e) sub') es /\ e <> PermissionError /\
       list_directories env path =
         Raise (HTTPException 500 (exc_str (OSError e (str (child dir m)))))).
Proof.
  intros dir Hr Hw Hs.
  assert (Hsorted : forall e, In e (sort_entries es) <-> In e es).
  { intros e. split; apply Permutation_in;
      [|apply Permutation_sym]; apply sort_entries_perm. }
  rewrite (list_directories_closed env r Hr Hw). fold dir. rewrite Hs.
  unfold listing_of. split.
  - intros Hf. exists (directory_entries env dir (sort_entries es)).
    rewrite first_fatal_None.
    2:{ apply Forall_forall. intros e Hin. apply Hsorted in Hin.
        rewrite Forall_forall in Hf. now apply Hf. }
    split; [reflexivity|]. intros n sub Hin. apply Hsorted in Hin.
    exact (directory_entries_In env dir _ _ _ _ Hin).
  - intros n sub err Hin Hne.
    assert (Hff : fatal_fault (snd (n, Dir (Some err) sub)) = Some err).
    { simpl. destruct err; try reflexivity. now elim Hne. }
    apply Hsorted in Hin.
    destruct (first_fatal_Some _ _ _ Hin Hff) as [m [e He]].
    rewrite He. destruct (first_fatal_not_permission _ _ _ He) as [H1 [sub' H2]].
    exists m, e, sub'. apply Hsorted in H2. now repeat split.
Qed.

(** ** Media listings *)

(** C6.  Listing the media of an existing directory with the filter
    [images] returns its image files, in name order, and no videos; with the
    filter [videos] it returns its video files and no images. *)
Theorem list_media_type_filter
        (env : Env) (r : string) (path : option string)
        (es : list (string * node)) :
  let dir := target_dir (parse r) path in
  MEDIA_ROOT env = Some r ->
  wf_fs (fs env) ->
  stat (fs env) dir = Some (Dir None es) ->
  list_media env path (Some "images") =
    Ok (mkMediaListing (or_empty path)
          (media_entries env dir (images_in (sort_entries es))) []) /\
  list_media env path (Some "videos") =
    Ok (mkMediaListing (or_empty path) []
          (media_entries env dir (videos_in (sort_entries es)))).
Proof.
  intros dir Hr Hw Hs.
  rewrite !(list_media_closed env r Hr Hw). fold dir. rewrite Hs.
  unfold media_listing_of.
  rewrite selected_images_images, selected_images_videos,
          selected_videos_videos, selected_videos_images.
  split; reflexivity.
Qed.

(** ** Serving files *)

Section ServeMedia.

Lemma dict_get_default (d : list (string * string)) (k default : string) :
  ~ In k (map fst d) -> dict_get d k default = default.
Proof.
  induction d as [|[k' v] d IH]; simpl; [reflexivity|].
  intros H. destruct (String.eqb k' k) eqn:E.
  - apply String.eqb_eq in E. exfalso. apply H. now left.
  - apply IH. intros Hin. apply H. now right.
Qed.

(** What [serve_media] answers once both paths are resolved, by what
    the lookup of the resolved target gives. *)
Lemma serve_media_cases (env : Env) (r file_path : string) :
  MEDIA_ROOT env = Some r ->
  let joined := div (parse r) file_path in
  let target := resolve (fs env) joined in
  serve_media env file_path =
  if Str.contains NUL (str joined) || Str.contains NUL (str (parse r))
  then Raise (HTTPException 500 "embedded null byte")
  else if negb (Str.startswith (str target) (str (resolve (fs env) (parse r))))
  then Raise (HTTPException 403 "Access denied")
  else match stat (fs env) target with
       | Some RegFile =>
           Ok (mkFileResponse target
                 (dict_get content_types (extension file_path)
                           "application/octet-stream"))
       | Some _ => Raise (HTTPException 400 "Not a file")
       | None => missing env target "File not found"
       end.
Proof.
  intros Hr joined target. unfold serve_media.
  rewrite (get_media_root_configured env r Hr). cbn [bind]. fold joined.
  unfold Path_resolve.
  destruct (Str.contains NUL (str joined)); [reflexivity|]. cbn [bind orb].
  destruct (Str.contains NUL (str (parse r))); [reflexivity|]. cbn [bind].
  fold target.
  destruct (negb (Str.startswith _ _)); [reflexivity|].
  destruct (stat (fs env) target) as [n|] eqn:Hs.
  - rewrite (exists_Some _ _ _ Hs), (is_file_Some _ _ _ Hs).
    destruct n; reflexivity.
  - now apply (missing_closed env).
Qed.

(** Both [resolve] calls of [serve_media] return. *)
Lemma resolved_no_NUL (fs : filesystem) (p q : Path) :
  Path_resolve fs p = Ok q ->
  Str.contains NUL (str p) = false /\ q = resolve fs p.
Proof.
  unfold Path_resolve. destruct (Str.contains NUL (str p)); [discriminate|].
  intros H. inversion H. now split.
Qed.

End ServeMedia.



(** C1 (the code departs from it).  With media root [/root], the request
    [../root-evil/x.jpg] resolves to [/root-evil/x.jpg], which is not under
    [/root]; the string comparison [startswith] lets it through and the
    file is served with status 200. *)
Theorem serve_media_sibling_with_root_prefix_is_served :
  let target := resolve (fs evil_env) (div (parse "/root") "../root-evil/x.jpg") in
  target = mkPath "/" ["root-evil"; "x.jpg"] /\
  is_relative_to target (resolve (fs evil_env) (parse "/root")) = false /\
  serve_media evil_env "../root-evil/x.jpg" =
    Ok (mkFileResponse (mkPath "/" ["root-evil"; "x.jpg"]) "image/jpeg") /\
  status (serve_media evil_env "../root-evil/x.jpg") = 200 /\
  status (serve_media evil_env "../other/x.jpg") = 403.
Proof. repeat split; reflexivity. Qed.

(** C2 (the code departs from it).  With media root [/media], the request
    path [../secret] makes the directory listing, the media listing and the
    slideshow report the contents of [/secret], outside the root, with
    status 200; only file serving refuses such a path. *)
Theorem listings_outside_the_root_are_served :
  list_directories media_env (Some "../secret") =
    Ok (mkListing "../secret"
          [mkDirectoryEntry "keys" "../secret/keys" 0 1] 1 0) /\
  list_media media_env (Some "../secret") None =
    Ok (mkMediaListing "../secret"
          [mkMediaEntry "plan.png" "../secret/plan.png"] []) /\
  slideshow_page media_env (fun _ => 0) "images" (Some "../secret") false =
    Ok (mkHTMLResponse
          (SlideshowDocument [mkMediaEntry "plan.png" "../secret/plan.png"]
                             "images")) /\
  is_relative_to (resolve (fs media_env) (div (parse "/media") "../secret"))
                 (resolve (fs media_env) (parse "/media")) = false /\
  serve_media media_env "../secret/plan.png" =
    Raise (HTTPException 403 "Access denied").
Proof. repeat split; reflexivity. Qed.

(** ** The slideshow page *)



(** ** Name order *)

Section NameOrder.

Import OrderedTypeEx.

Lemma leb_le (a b : string) :
  String.leb a b = true <-> a = b \/ String_as_OT.lt a b.
Proof.
  unfold String.leb. destruct (String.compare a b) eqn:E.
  - apply String_as_OT.cmp_eq in E. tauto.
  - apply String_as_OT.cmp_lt in E. tauto.
  - split; [discriminate|]. intros [H|H].
    + apply String_as_OT.cmp_eq in H. unfold String_as_OT.cmp in H.
      congruence.
    + apply String_as_OT.cmp_lt in H. unfold String_as_OT.cmp in H.
      congruence.
Qed.


Lemma leb_trans (a b c : string) :
  String.leb a b = true -> String.leb b c = true -> String.leb a c = true.
Proof.
  rewrite !leb_le. intros [->|H1] [->|H2]; auto.
  right. eapply String_as_OT.lt_trans; eassumption.
Qed.

Lemma insert_name_In (x y : string) (l : list string) :
  In y (insert_name x l) <-> y = x \/ In y l.
Proof.
  induction l as [|z l IH]; simpl; [intuition|].
  destruct (String.leb x z); simpl; [intuition|]. rewrite IH. intuition.
Qed.

Lemma insert_name_ascending (x : string) (l : list string) :
  ascending l -> ascending (insert_name x l).
Proof.
  unfold ascending. intros H. induction H as [|y l Hl IH Hy]; simpl.
  - repeat constructor.
  - destruct (String.leb x y) eqn:E.
    + constructor; [now constructor|]. constructor; [assumption|].
      rewrite Forall_forall in *. intros z Hz. eapply leb_trans; eauto.
    + constructor; [assumption|]. apply Forall_forall. intros z Hz.
      apply insert_name_In in Hz. destruct Hz as [->|Hz].
      * destruct (String.leb_total x y); congruence.
      * rewrite Forall_forall in Hy. now apply Hy.
Qed.

Lemma sort_names_ascending (l : list string) : ascending (sort_names l).
Proof.
  induction l as [|x l IH]; simpl; [constructor|].
  now apply insert_name_ascending.
Qed.

(** Filtering entries keeps their names in order. *)
Lemma filter_ascending (f : string * node -> bool)
      (l : list (string * node)) :
  ascending (map fst l) -> ascending (map fst (filter f l)).
Proof.
  unfold ascending. induction l as [|e l IH]; simpl; [trivial|].
  intros H. inversion H as [|? ? Hl Hf]; subst.
  destruct (f e); simpl; [|now apply IH].
  constructor; [now apply IH|].
  rewrite Forall_forall in *. intros n Hn. apply Hf.
  apply in_map_iff in Hn. destruct Hn as [e' [<- He']].
  apply filter_In in He'. apply in_map. tauto.
Qed.

Lemma sort_entries_ascending (es : list (string * node)) :
  ascending (map fst (sort_entries es)).
Proof. rewrite sort_entries_names. apply sort_names_ascending. Qed.

Lemma media_entries_names env dir l :
  map media_name (media_entries env dir l) = map fst l.
Proof.
  unfold media_entries. rewrite map_map. reflexivity.
Qed.

End NameOrder.

(** ** Enumeration order *)

Section EnumerationOrder.

Lemma canon_Dir f es :
  canon (Dir f es) = Dir f (sort_entries (map canon_entry es)).
Proof. reflexivity. Qed.

Lemma canon_entry_names l : map fst (map canon_entry l) = map fst l.
Proof. rewrite map_map. reflexivity. Qed.

Lemma find_entry_map_canon n l :
  find_entry n (map canon_entry l) = option_map canon (find_entry n l).
Proof.
  induction l as [|[m c] l IH]; simpl; [reflexivity|].
  destruct (String.eqb m n); [reflexivity | exact IH].
Qed.

Lemma find_entry_perm n l l' :
  Permutation l l' -> NoDup (map fst l) -> find_entry n l = find_entry n l'.
Proof.
  intros H. induction H as [|[m c] l l' H IH|[m c] [m' c'] l|l l' l'' H IH H' IH'];
    intros Hnd.
  - reflexivity.
  - simpl. destruct (String.eqb m n); [reflexivity|].
    apply IH. simpl in Hnd. now inversion Hnd.
  - simpl. destruct (String.eqb m' n) eqn:E1;
      destruct (String.eqb m n) eqn:E2; try reflexivity.
    apply String.eqb_eq in E1, E2. subst. simpl in Hnd.
    inversion Hnd as [|? ? Hin _]; subst. exfalso. apply Hin. now left.
  - rewrite IH by assumption. apply IH'.
    eapply Permutation_NoDup; [|exact Hnd]. now apply Permutation_map.
Qed.

Lemma find_entry_canon n es :
  NoDup (map fst es) ->
  find_entry n (sort_entries (map canon_entry es)) =
  option_map canon (find_entry n es).
Proof.
  intros Hnd. rewrite <- find_entry_map_canon. symmetry.
  apply find_entry_perm.
  - apply Permutation_sym, sort_entries_perm.
  - now rewrite canon_entry_names.
Qed.

Lemma walk_canon (segs : list string) :
  forall anc cur,
    Forall wf_node anc -> wf_node cur ->
    walk (map canon anc) (canon cur) segs =
    option_map (fun an => (map canon (fst an), canon (snd an)))
               (walk anc cur segs).
Proof.
  induction segs as [|s segs IH]; intros anc cur Ha Hc; [reflexivity|].
  destruct cur as [| |f es]; try reflexivity.
  rewrite canon_Dir. cbn [walk]. rewrite <- canon_Dir.
  destruct (String.eqb s "..").
  - destruct anc as [|p anc]; [now apply (IH [])|].
    inversion Ha; subst. now apply IH.
  - pose proof Hc as Hc'. apply (proj1 (wf_node_Dir _ _)) in Hc'.
    destruct Hc' as [[Hnd _] _]. rewrite (find_entry_canon _ _ Hnd).
    destruct (find_entry s es) as [c|] eqn:E; [|reflexivity].
    cbn [option_map]. apply (IH (Dir f es :: anc) c).
    + now constructor.
    + eapply wf_find_entry; eassumption.
Qed.

Lemma stat_canon (fs : filesystem) (p : Path) :
  wf_fs fs -> stat (canon_fs fs) p = option_map canon (stat fs p).
Proof.
  intros Hw. unfold stat, canon_fs, absolute_parts. cbn [tree cwd].
  rewrite (walk_canon _ [] (tree fs) (Forall_nil _) Hw).
  destruct (walk [] (tree fs) _) as [[anc n]|]; reflexivity.
Qed.

Lemma walk_failure_canon (segs : list string) :
  forall anc cur,
    Forall wf_node anc -> wf_node cur ->
    walk_failure (map canon anc) (canon cur) segs = walk_failure anc cur segs.
Proof.
  induction segs as [|s segs IH]; intros anc cur Ha Hc; [reflexivity|].
  destruct cur as [| |f es]; try reflexivity.
  rewrite canon_Dir. cbn [walk_failure]. rewrite <- canon_Dir.
  destruct (String.eqb s "..").
  - destruct anc as [|p anc]; [now apply (IH [])|].
    inversion Ha; subst. now apply IH.
  - pose proof Hc as Hc'. apply (proj1 (wf_node_Dir _ _)) in Hc'.
    destruct Hc' as [[Hnd _] _]. rewrite (find_entry_canon _ _ Hnd).
    destruct (find_entry s es) as [c|] eqn:E; [|reflexivity].
    cbn [option_map]. apply (IH (Dir f es :: anc) c).
    + now constructor.
    + eapply wf_find_entry; eassumption.
Qed.

(** The order of enumeration does not change what [exists] answers. *)
Lemma exists_canon (fs : filesystem) (p : Path) :
  wf_fs fs -> exists_ (canon_fs fs) p = exists_ fs p.
Proof.
  intros Hw. unfold exists_, os_stat. rewrite (stat_canon _ _ Hw).
  destruct (stat fs p); [reflexivity|]. cbn [option_map].
  unfold stat_failure, canon_fs, absolute_parts. cbn [tree cwd].
  now rewrite (walk_failure_canon _ [] (tree fs) (Forall_nil _) Hw).
Qed.

Lemma same_files_exists (fs1 fs2 : filesystem) (p : Path) :
  wf_fs fs1 -> wf_fs fs2 -> same_files fs1 fs2 ->
  exists_ fs1 p = exists_ fs2 p.
Proof.
  intros H1 H2 [Ht Hc]. rewrite <- (exists_canon fs1), <- (exists_canon fs2)
    by assumption.
  unfold canon_fs. now rewrite Ht, Hc.
Qed.

(** Two filesystems with the same files give, at every path, nodes with
    the same canonical form. *)
Lemma same_files_stat (fs1 fs2 : filesystem) (p : Path) :
  wf_fs fs1 -> wf_fs fs2 -> same_files fs1 fs2 ->
  option_map canon (stat fs1 p) = option_map canon (stat fs2 p).
Proof.
  intros H1 H2 [Ht Hc]. rewrite <- !stat_canon by assumption.
  unfold canon_fs. now rewrite Ht, Hc.
Qed.

Lemma insert_entry_canon x l :
  insert_entry (canon_entry x) (map canon_entry l) =
  map canon_entry (insert_entry x l).
Proof.
  induction l as [|y l IH]; [reflexivity|]. cbn [map insert_entry].
  cbn [canon_entry fst]. destruct (String.leb (fst x) (fst y));
    [reflexivity|]. cbn [map]. now rewrite <- IH.
Qed.

Lemma sort_entries_canon l :
  sort_entries (map canon_entry l) = map canon_entry (sort_entries l).
Proof.
  induction l as [|x l IH]; [reflexivity|]. cbn [map sort_entries fold_right].
  fold (sort_entries (map canon_entry l)). fold (sort_entries l).
  rewrite IH. apply insert_entry_canon.
Qed.

(** A filter that looks at names and node kinds only. *)
Lemma filter_canon (f : string * node -> bool) (l : list (string * node)) :
  (forall e, f (canon_entry e) = f e) ->
  filter f (map canon_entry l) = map canon_entry (filter f l).
Proof.
  intros Hf. induction l as [|e l IH]; [reflexivity|]. cbn [map filter].
  rewrite Hf. destruct (f e); cbn [map]; now rewrite IH.
Qed.

Lemma media_in_canon exts l :
  media_in exts (map canon_entry l) = map canon_entry (media_in exts l).
Proof. apply filter_canon. intros [n []]; reflexivity. Qed.

Lemma selected_canon mt cat l :
  selected mt cat (map canon_entry l) = map canon_entry (selected mt cat l).
Proof. apply filter_canon. intros [n []]; reflexivity. Qed.

Lemma passing_canon mt l :
  passing mt (map canon_entry l) = map canon_entry (passing mt l).
Proof. apply filter_canon. intros [n []]; reflexivity. Qed.

Lemma media_entries_canon env dir l :
  media_entries env dir (map canon_entry l) = media_entries env dir l.
Proof. unfold media_entries. now rewrite map_map. Qed.

Lemma first_fatal_canon l : first_fatal (map canon_entry l) = first_fatal l.
Proof.
  induction l as [|[n c] l IH]; [reflexivity|]. cbn [map first_fatal].
  cbn [canon_entry fst snd]. rewrite IH.
  destruct c as [| |[[]|] sub]; reflexivity.
Qed.

Lemma media_in_length_canon exts l :
  length (media_in exts (sort_entries (map canon_entry l))) =
  length (media_in exts l).
Proof.
  rewrite (media_in_perm exts _ _ (sort_entries_perm _)).
  now rewrite media_in_canon, length_map.
Qed.

Lemma directory_entries_canon env dir l :
  directory_entries env dir (map canon_entry l) = directory_entries env dir l.
Proof.
  induction l as [|[n c] l IH]; [reflexivity|].
  unfold directory_entries in *. cbn [map flat_map].
  rewrite IH. f_equal. cbn [canon_entry fst snd].
  destruct c as [| |fault sub]; try reflexivity.
  rewrite canon_Dir. unfold subdirectory_counts, images_in, videos_in.
  destruct fault; [reflexivity|]. now rewrite !media_in_length_canon.
Qed.

End EnumerationOrder.

(** ** Responses do not depend on the enumeration order *)

Section Determinism.

Variables env1 env2 : Env.
Hypothesis same_root : MEDIA_ROOT env1 = MEDIA_ROOT env2.

Lemma path_field_root dir n : path_field env1 dir n = path_field env2 dir n.
Proof.
  unfold path_field, relative_to_media_root, get_media_root.
  now rewrite same_root.
Qed.

Lemma directory_entries_root dir l :
  directory_entries env1 dir l = directory_entries env2 dir l.
Proof.
  unfold directory_entries. apply flat_map_ext. intros [n c].
  now rewrite path_field_root.
Qed.

Lemma media_entries_root dir l :
  media_entries env1 dir l = media_entries env2 dir l.
Proof.
  unfold media_entries. apply map_ext. intros [n c].
  now rewrite path_field_root.
Qed.

(** Nodes with the same canonical form are of the same kind; two
    directories among them have the same fault and, once sorted, the same
    entries up to canonical form. *)
Lemma canon_eq_inv (n1 n2 : node) :
  canon n1 = canon n2 ->
  match n1, n2 with
  | RegFile, RegFile => True
  | Special, Special => True
  | Dir f1 es1, Dir f2 es2 =>
      f1 = f2 /\
      map canon_entry (sort_entries es1) = map canon_entry (sort_entries es2) /\
      (forall exts, length (media_in exts es1) = length (media_in exts es2))
  | _, _ => False
  end.
Proof.
  destruct n1 as [| |f1 es1], n2 as [| |f2 es2]; try discriminate; trivial.
  rewrite !canon_Dir. intros H. inversion H as [[Hf Hs]].
  split; [reflexivity|]. split; [now rewrite <- !sort_entries_canon|].
  intros exts. rewrite <- (media_in_length_canon exts es1), Hs.
  apply media_in_length_canon.
Qed.

Lemma listing_of_same path dir (n1 n2 : option node) :
  exists_ (fs env1) dir = exists_ (fs env2) dir ->
  option_map canon n1 = option_map canon n2 ->
  listing_of env1 path dir n1 = listing_of env2 path dir n2.
Proof.
  intros He.
  destruct n1 as [n1|], n2 as [n2|]; try discriminate;
    [|intros _; cbn [listing_of]; unfold missing; now rewrite He].
  intros H. inversion H as [Hc]. apply canon_eq_inv in Hc.
  destruct n1 as [| |f1 es1], n2 as [| |f2 es2]; try contradiction;
    try reflexivity.
  destruct Hc as [<- [Hs Hl]]. unfold listing_of.
  destruct f1; [reflexivity|].
  rewrite <- (first_fatal_canon (sort_entries es1)), Hs, first_fatal_canon.
  destruct (first_fatal (sort_entries es2)) as [[m e]|]; [reflexivity|].
  rewrite <- (directory_entries_canon env1 dir (sort_entries es1)), Hs,
          directory_entries_canon, directory_entries_root.
  unfold images_in, videos_in. now rewrite !Hl.
Qed.

Lemma media_listing_of_same path mt dir (n1 n2 : option node) :
  exists_ (fs env1) dir = exists_ (fs env2) dir ->
  option_map canon n1 = option_map canon n2 ->
  media_listing_of env1 path mt dir n1 = media_listing_of env2 path mt dir n2.
Proof.
  intros He.
  destruct n1 as [n1|], n2 as [n2|]; try discriminate;
    [|intros _; cbn [media_listing_of]; unfold missing; now rewrite He].
  intros H. inversion H as [Hc]. apply canon_eq_inv in Hc.
  destruct n1 as [| |f1 es1], n2 as [| |f2 es2]; try contradiction;
    try reflexivity.
  destruct Hc as [<- [Hs _]]. unfold media_listing_of.
  destruct f1; [reflexivity|].
  rewrite <- (media_entries_canon env1 dir (selected mt "images" _)),
          <- (media_entries_canon env1 dir (selected mt "videos" _)),
          <- !selected_canon, Hs, !selected_canon, !media_entries_canon,
          !media_entries_root.
  reflexivity.
Qed.

Lemma slideshow_of_same mt dir (n1 n2 : option node) :
  exists_ (fs env1) dir = exists_ (fs env2) dir ->
  option_map canon n1 = option_map canon n2 ->
  slideshow_of env1 mt dir n1 = slideshow_of env2 mt dir n2.
Proof.
  intros He.
  destruct n1 as [n1|], n2 as [n2|]; try discriminate;
    [|intros _; cbn [slideshow_of]; now rewrite He].
  intros H. inversion H as [Hc]. apply canon_eq_inv in Hc.
  destruct n1 as [| |f1 es1], n2 as [| |f2 es2]; try contradiction;
    try reflexivity.
  destruct Hc as [<- [Hs _]]. unfold slideshow_of.
  destruct f1; [reflexivity|].
  rewrite <- (media_entries_canon env1 dir (passing _ _)),
          <- passing_canon, Hs, passing_canon, media_entries_canon,
          media_entries_root.
  reflexivity.
Qed.

End Determinism.

Section Ascending.

Variable env : Env.

Lemma listing_of_ascending path dir n resp :
  listing_of env path dir n = Ok resp ->
  ascending (map dir_name (directories resp)).
Proof.
  unfold listing_of. destruct n as [[| |[e|] es]|]; try discriminate;
    [|unfold missing; destruct (exists_ _ _); discriminate].
  destruct (first_fatal (sort_entries es)) as [[m e]|]; [discriminate|].
  intros H. inversion H. cbn [directories].
  rewrite directory_entries_names.
  apply filter_ascending, sort_entries_ascending.
Qed.

Lemma media_listing_of_ascending path mt dir n resp :
  media_listing_of env path mt dir n = Ok resp ->
  ascending (map media_name (images resp)) /\
  ascending (map media_name (videos resp)).
Proof.
  unfold media_listing_of. destruct n as [[| |[e|] es]|]; try discriminate;
    [|unfold missing; destruct (exists_ _ _); discriminate].
  intros H. inversion H. cbn [images videos].
  rewrite !media_entries_names. unfold selected.
  split; apply filter_ascending, sort_entries_ascending.
Qed.

Lemma slideshow_of_ascending mt dir n :
  ascending (map media_name (page_media (slideshow_of env mt dir n))).
Proof.
  unfold slideshow_of. destruct n as [[| |[e|] es]|]; try constructor;
    [|destruct (exists_ _ _); constructor].
  cbn [page_media]. rewrite media_entries_names. unfold passing.
  apply filter_ascending, sort_entries_ascending.
Qed.

End Ascending.

(** What a listing holds: the entries of the directory, each once. *)
Section Contents.

Variable env : Env.

Lemma filter_perm {A} (f : A -> bool) (l l' : list A) :
  Permutation l l' -> Permutation (filter f l) (filter f l').
Proof.
  induction 1 as [|x l l' H IH|x y l|l l' l'' H IH H' IH'].
  - constructor.
  - cbn [filter]. destruct (f x); [now constructor | exact IH].
  - cbn [filter]. destruct (f x), (f y);
      try apply Permutation_refl. apply perm_swap.
  - eapply Permutation_trans; eassumption.
Qed.

Lemma sorted_names_perm (f : string * node -> bool)
      (es : list (string * node)) :
  Permutation (map fst (filter f (sort_entries es))) (map fst (filter f es)).
Proof. apply Permutation_map, filter_perm, sort_entries_perm. Qed.

Lemma listing_of_content path dir es resp :
  listing_of env path dir (Some (Dir None es)) = Ok resp ->
  Permutation (map dir_name (directories resp))
              (map fst (filter (fun e => S_ISDIR (snd e)) es)) /\
  image_count resp = length (images_in es) /\
  video_count resp = length (videos_in es).
Proof.
  cbn [listing_of].
  destruct (first_fatal (sort_entries es)) as [[m e]|]; [discriminate|].
  intros H. inversion H. cbn [directories image_count video_count].
  rewrite directory_entries_names.
  split; [apply sorted_names_perm | split; reflexivity].
Qed.

Lemma media_listing_of_content path mt dir es resp :
  media_listing_of env path mt dir (Some (Dir None es)) = Ok resp ->
  Permutation (map media_name (images resp))
              (map fst (selected mt "images" es)) /\
  Permutation (map media_name (videos resp))
              (map fst (selected mt "videos" es)).
Proof.
  cbn [media_listing_of]. intros H. inversion H. cbn [images videos].
  rewrite !media_entries_names. unfold selected.
  split; apply sorted_names_perm.
Qed.

Lemma slideshow_of_content mt dir es :
  Permutation
    (map media_name
         (page_media (slideshow_of env mt dir (Some (Dir None es)))))
    (map fst (passing (Some mt) es)).
Proof.
  cbn [slideshow_of page_media]. rewrite media_entries_names.
  unfold passing. apply sorted_names_perm.
Qed.

End Contents.

(** C8.  Two servers with the same media root, looking at filesystems that
    hold the same files and differ at most in the order in which directories
    are enumerated, answer a directory listing, a media listing and an
    unshuffled slideshow request identically.  Every sequence in these
    answers is in ascending name order, and holds exactly the entries of
    the listed directory that it is for, each once: the subdirectories
    and, in a directory whose names are ASCII, the files selected as
    images or as videos and the files that pass the slideshow's filter;
    the counts of a directory listing are then the numbers of its image
    and video files. *)
Theorem listings_are_deterministic
        (env1 env2 : Env) (path media_type : option string)
        (slideshow_type : string) (rand1 rand2 : nat -> nat) :
  MEDIA_ROOT env1 = MEDIA_ROOT env2 ->
  wf_fs (fs env1) -> wf_fs (fs env2) ->
  same_files (fs env1) (fs env2) ->
  list_directories env1 path = list_directories env2 path /\
  list_media env1 path media_type = list_media env2 path media_type /\
  slideshow_page env1 rand1 slideshow_type path false =
    slideshow_page env2 rand2 slideshow_type path false /\
  (forall resp, list_directories env1 path = Ok resp ->
                ascending (map dir_name (directories resp))) /\
  (forall resp, list_media env1 path media_type = Ok resp ->
                ascending (map media_name (images resp)) /\
                ascending (map media_name (videos resp))) /\
  (forall page,
     slideshow_page env1 rand1 slideshow_type path false = Ok page ->
     ascending (map media_name (page_media (content page)))) /\
  (forall resp, list_directories env1 path = Ok resp ->
     exists r es,
       MEDIA_ROOT env1 = Some r /\
       stat (fs env1) (target_dir (parse r) path) = Some (Dir None es) /\
       Permutation (map dir_name (directories resp))
                   (map fst (filter (fun e => S_ISDIR (snd e)) es)) /\
       (ascii_names es ->
        image_count resp = length (images_in es) /\
        video_count resp = length (videos_in es))) /\
  (forall resp, list_media env1 path media_type = Ok resp ->
     exists r es,
       MEDIA_ROOT env1 = Some r /\
       stat (fs env1) (target_dir (parse r) path) = Some (Dir None es) /\
       (ascii_names es ->
        Permutation (map media_name (images resp))
                    (map fst (selected media_type "images" es)) /\
        Permutation (map media_name (videos resp))
                    (map fst (selected media_type "videos" es)))) /\
  (forall page media_files,
     slideshow_page env1 rand1 slideshow_type path false = Ok page ->
     content page = SlideshowDocument media_files slideshow_type ->
     exists r es,
       MEDIA_ROOT env1 = Some r /\
       stat (fs env1) (target_dir (parse r) path) = Some (Dir None es) /\
       (ascii_names es ->
        Permutation (map media_name media_files)
                    (map fst (passing (Some slideshow_type) es)))).
Proof.
  intros Hroot Hw1 Hw2 Hsame.
  destruct (MEDIA_ROOT env1) as [r|] eqn:Hr1.
  - symmetry in Hroot.
    assert (Hst : forall p, option_map canon (stat (fs env1) p) =
                            option_map canon (stat (fs env2) p)).
    { intros p. now apply same_files_stat. }
    assert (Hroot' : MEDIA_ROOT env1 = MEDIA_ROOT env2) by congruence.
    rewrite (list_directories_closed env1 r Hr1 Hw1),
            (list_directories_closed env2 r Hroot Hw2),
            (list_media_closed env1 r Hr1 Hw1),
            (list_media_closed env2 r Hroot Hw2).
    unfold slideshow_page.
    rewrite (generate_slideshow_html_closed env1 r Hr1 Hw1),
            (generate_slideshow_html_closed env2 r Hroot Hw2).
    assert (Hex : forall p, exists_ (fs env1) p = exists_ (fs env2) p).
    { intros p. now apply same_files_exists. }
    rewrite target_dir_or_empty.
    set (dir := target_dir (parse r) path).
    split; [now apply listing_of_same|].
    split; [now apply media_listing_of_same|].
    split.
    { rewrite (slideshow_of_same env1 env2 Hroot' _ _ _ _ (Hex _) (Hst _)).
      destruct (negb _); [reflexivity|].
      destruct (slideshow_of env2 _ _ _); reflexivity. }
    split; [intros resp; apply listing_of_ascending|].
    split; [intros resp; apply media_listing_of_ascending|].
    split.
    { intros page. destruct (negb _); [discriminate|].
      intros H. inversion H. cbn [content].
      pose proof (slideshow_of_ascending env1 slideshow_type dir
                    (stat (fs env1) dir)) as Ha.
      destruct (slideshow_of env1 _ _ _); assumption. }
    split.
    { intros resp H.
      destruct (stat (fs env1) dir) as [[| |[e|] es]|] eqn:Hs;
        revert H; no_listing.
      intros H. exists r, es. split; [reflexivity|]. split; [exact Hs|].
      destruct (listing_of_content env1 _ _ _ _ H) as (Hd & Hi).
      split; [exact Hd | intros _; exact Hi]. }
    split.
    { intros resp H.
      destruct (stat (fs env1) dir) as [[| |[e|] es]|] eqn:Hs;
        revert H; no_listing.
      intros H. exists r, es. split; [reflexivity|]. split; [exact Hs|].
      intros _. exact (media_listing_of_content env1 _ _ _ _ _ H). }
    intros page media_files. destruct (negb _); [discriminate|].
    intros H. inversion H. cbn [content]. clear H.
    destruct (stat (fs env1) dir) as [[| |[e|] es]|] eqn:Hs;
      try discriminate.
    2:{ cbn [slideshow_of]. destruct (exists_ _ _); discriminate. }
    intros H. exists r, es. split; [reflexivity|]. split; [exact Hs|].
    pose proof (slideshow_of_content env1 slideshow_type dir es) as Hp.
    cbn [slideshow_of] in H, Hp. inversion H. subst. intros _. exact Hp.
  - symmetry in Hroot.
    unfold list_directories, list_media, slideshow_page,
      generate_slideshow_html, get_media_root.
    rewrite Hr1, Hroot. cbn [bind http_errors].
    split; [reflexivity|]. split; [reflexivity|]. split; [reflexivity|].
    split; [discriminate|]. split; [discriminate|].
    split.
    { intros page. destruct (negb _); [discriminate|].
      intros H. inversion H. constructor. }
    split; [discriminate|]. split; [discriminate|].
    intros page media_files. destruct (negb _); [discriminate|].
    intros H. inversion H. discriminate.
Qed.

(** ** The theorems at work on the example filesystems *)

Ltac solve_wf :=
  unfold wf_fs; cbv -[names_ok In not];
  repeat match goal with
         | |- names_ok _ => unfold names_ok
         | |- _ /\ _ => split
         | |- True => exact I
         | |- NoDup _ => constructor
         | |- ~ _ => simpl; intuition discriminate
         end.

Lemma media_env_wf : wf_fs (fs media_env).
Proof. solve_wf. Qed.

Lemma media_env_reordered_wf : wf_fs (fs media_env_reordered).
Proof. solve_wf. Qed.

Lemma pair_env_wf : wf_fs (fs pair_env).
Proof. solve_wf. Qed.

Lemma locked_env_wf : wf_fs (fs locked_env).
Proof. solve_wf. Qed.

Lemma broken_env_wf : wf_fs (fs broken_env).
Proof. solve_wf. Qed.

Lemma lower_lowers_ascii : Classifier.lowers_ascii Str.lower.
Proof.
  split; [reflexivity|]. intros u s _. exists (Str.lower u). apply lower_app.
Defined.

Lemma classifier_total_case_insensitive_witness :
  Classifier.lowers_ascii Str.lower /\
  get_media_type "HOLIDAY.Jpeg" = get_media_type "holiday.jpeg" /\
  extension "a.b.MP4" = "mp4" /\
  extension "x" = "x".
Proof.
  split; [exact lower_lowers_ascii|].
  destruct (classifier_total_case_insensitive Str.lower lower_lowers_ascii)
    as (_ & _ & _ & _ & _ & _ & Hcase & Hext & Hno & _).
  split; [apply (Hcase "HOLIDAY.Jpeg" "holiday.jpeg"); reflexivity|].
  split; [apply (Hext "a.b" "MP4"); reflexivity|].
  apply (Hno "x"); reflexivity.
Defined.

Lemma list_directories_one_level_counts_witness :
  wf_fs (fs media_env) /\
  stat (fs media_env) (parse "/media") = Some (Dir None media_root_entries) /\
  exists ds,
    list_directories media_env None = Ok (mkListing "" ds 1 0) /\
    map dir_name ds = ["A"] /\
    Forall (fun d => dir_image_count d = 2 /\ dir_video_count d = 1) ds.
Proof.
  split; [exact media_env_wf|]. split; [reflexivity|].
  destruct (list_directories_one_level_counts
              media_env "/media" None media_root_entries
              eq_refl media_env_wf eq_refl) as [ds (H1 & H2 & H3)].
  - repeat constructor; intros fault sub H; cbn in H; congruence.
  - exists ds. split; [exact H1|]. split; [exact H2|].
    cbn in H2. destruct ds as [|d [|d' ds]]; try discriminate.
    inversion H2 as [Hn]. inversion H3 as [|? ? Hd _]; subst.
    destruct Hd as (fault & sub & Hf & Hi & Hv). rewrite Hn in Hf.
    cbn in Hf. inversion Hf; subst. repeat constructor; assumption.
Defined.

Lemma list_directories_swallows_permission_error_only_witness :
  (exists ds,
     list_directories locked_env None = Ok (mkListing "" ds 0 0) /\
     In (mkDirectoryEntry "locked" "locked" 0 0) ds) /\
  (exists m e sub,
     In (m, Dir (Some e) sub) broken_entries /\ e <> PermissionError /\
     list_directories broken_env None =
       Raise (HTTPException 500
                (exc_str (OSError e (str (child (parse "/media") m)))))).
Proof.
  split.
  - destruct (proj1 (list_directories_swallows_permission_error_only
                       locked_env "/media" None locked_entries
                       eq_refl locked_env_wf eq_refl))
      as [ds [H1 H2]].
    + repeat constructor.
    + exists ds. split; [exact H1|].
      apply (H2 "locked" [("a.jpg", RegFile)]). now left.
  - apply (proj2 (list_directories_swallows_permission_error_only
                    broken_env "/media" None broken_entries
                    eq_refl broken_env_wf eq_refl)
                 "broken" [("a.jpg", RegFile)] (OtherOSError 5)).
    + now left.
    + discriminate.
Defined.

Lemma list_media_type_filter_witness :
  wf_fs (fs pair_env) /\
  list_media pair_env None (Some "images") =
    Ok (mkMediaListing "" [mkMediaEntry "a.png" "a.png"] []) /\
  list_media pair_env None (Some "videos") =
    Ok (mkMediaListing "" [] [mkMediaEntry "b.mp4" "b.mp4"]).
Proof.
  split; [exact pair_env_wf|].
  exact (list_media_type_filter pair_env "/media" None pair_entries
           eq_refl pair_env_wf eq_refl).
Defined.


Lemma listings_are_deterministic_witness :
  same_files (fs media_env) (fs media_env_reordered) /\
  list_directories media_env None = list_directories media_env_reordered None /\
  list_media media_env (Some "A") None =
    list_media media_env_reordered (Some "A") None /\
  (forall resp, list_media media_env (Some "A") None = Ok resp ->
                ascending (map media_name (images resp)) /\
                ascending (map media_name (videos resp))) /\
  (forall resp, list_media media_env (Some "A") None = Ok resp ->
     exists r es,
       MEDIA_ROOT media_env = Some r /\
       stat (fs media_env) (target_dir (parse r) (Some "A")) =
         Some (Dir None es) /\
       (ascii_names es ->
        Permutation (map media_name (images resp))
                    (map fst (selected None "images" es)) /\
        Permutation (map media_name (videos resp))
                    (map fst (selected None "videos" es)))).
Proof.
  assert (Hs : same_files (fs media_env) (fs media_env_reordered))
    by (split; reflexivity).
  split; [exact Hs|].
  split.
  - exact (proj1 (listings_are_deterministic
                    media_env media_env_reordered None None "images"
                    (fun _ => 0) (fun _ => 1)
                    eq_refl media_env_wf media_env_reordered_wf Hs)).
  - destruct (listings_are_deterministic
                media_env media_env_reordered (Some "A") None "images"
                (fun _ => 0) (fun _ => 1)
                eq_refl media_env_wf media_env_reordered_wf Hs)
      as (_ & H2 & _ & _ & H5 & _ & _ & H8 & _).
    split; [exact H2|]. split; [exact H5 | exact H8].
Defined.


Lemma relative_to_media_root_total_fallback_witness :
  relative_to_media_root media_env (parse "/secret/plan.png") =
    Ok "/secret/plan.png" /\
  Forall (fun e => path_field_ok media_env "/media" (parse "/secret")
                                 (media_name e) (media_path e))
         [mkMediaEntry "plan.png" "/secret/plan.png"].
Proof.
  destruct (relative_to_media_root_total_fallback media_env "/media" eq_refl)
    as (_ & Hout & _ & Hmedia & _).
  split.
  - apply (Hout (parse "/secret/plan.png")). reflexivity.
  - exact (Hmedia (Some "/secret") None
             (mkMediaListing "/secret"
                [mkMediaEntry "plan.png" "/secret/plan.png"] [])
             eq_refl).
Defined.

(** Shuffling is where the draws of the generator show. *)
Example slideshow_shuffle_depends_on_draws :
  slideshow_page media_env (fun _ => 0) "images" (Some "A") true <>
  slideshow_page media_env (fun _ => 1) "images" (Some "A") true.
Proof. discriminate. Qed.

(* ================================================================== *)
(** * Further properties *)

(** ** The filter and the classifier *)

(** X1.  The filtered test agrees with the classifier: a name passes the
    filter [images] exactly when it is classified ["images"], the filter
    [videos] exactly when it is classified ["videos"]; any other filter
    value acts as no filter, which lets through what either filter does. *)
Theorem media_filter_agrees_with_classifier (f : string) :
  (is_media_file f (Some "images") = true <->
   get_media_type f = Some "images") /\
  (is_media_file f (Some "videos") = true <->
   get_media_type f = Some "videos") /\
  (forall t, t <> "images" -> t <> "videos" ->
             is_media_file f (Some t) = is_media_file f None) /\
  is_media_file f None =
    is_media_file f (Some "images") || is_media_file f (Some "videos").
Proof.
  rewrite is_media_file_images, is_media_file_videos.
  unfold get_media_type.
  split; [|split; [|split]].
  - destruct (Str.mem (extension f) IMG_EXTS); [tauto|].
    destruct (Str.mem (extension f) VID_EXTS); split; discriminate.
  - destruct (Str.mem (extension f) IMG_EXTS) eqn:Ei.
    + rewrite (mem_img_not_vid _ Ei). split; discriminate.
    + destruct (Str.mem (extension f) VID_EXTS); split;
        try discriminate; reflexivity.
  - intros t H1 H2. unfold is_media_file, is_str.
    apply String.eqb_neq in H1, H2. now rewrite H1, H2.
  - reflexivity.
Qed.

Section UnknownFilter.

Lemma for_each_ext {A S} (f g : S -> A -> result S) (xs : list A) :
  (forall s x, f s x = g s x) ->
  forall s, for_each xs f s = for_each xs g s.
Proof.
  intros H. induction xs as [|x xs IH]; intros s; simpl; [reflexivity|].
  rewrite H. destruct (g s x); simpl; [apply IH | reflexivity].
Qed.

Lemma is_media_file_unknown f t :
  t <> "images" -> t <> "videos" ->
  is_media_file f (Some t) = is_media_file f None.
Proof.
  intros H1 H2. unfold is_media_file, is_str.
  apply String.eqb_neq in H1, H2. now rewrite H1, H2.
Qed.

End UnknownFilter.

(** X2.  A [media_type] other than [images] and [videos] does not make
    [list_media] fail or filter: the answer is that of a request without
    [media_type]. *)
Theorem list_media_unknown_filter
        (env : Env) (path : option string) (t : string) :
  t <> "images" -> t <> "videos" ->
  list_media env path (Some t) = list_media env path None.
Proof.
  intros H1 H2. unfold list_media.
  destruct (get_media_root env) as [media_root|e]; [|reflexivity].
  cbn [bind].
  destruct (exists_ _ _) as [[|]|e]; [|reflexivity|reflexivity].
  cbn [bind negb].
  destruct (is_dir _ _) as [[|]|e]; [|reflexivity|reflexivity].
  cbn [bind negb].
  destruct (iterdir _ _) as [items|e]; [|reflexivity]. cbn [bind].
  rewrite (for_each_ext (list_media_step env (Some t))
                        (list_media_step env None)); [reflexivity|].
  intros st item. unfold list_media_step.
  now rewrite (is_media_file_unknown _ t H1 H2).
Qed.

Lemma list_media_unknown_filter_witness :
  list_media pair_env None (Some "audio") =
    Ok (mkMediaListing "" [mkMediaEntry "a.png" "a.png"]
                          [mkMediaEntry "b.mp4" "b.mp4"]).
Proof.
  rewrite (list_media_unknown_filter pair_env None "audio");
    [reflexivity | discriminate | discriminate].
Defined.

(** ** Which requests succeed *)

Section Outcomes.



(** What the lookup of a missing path makes of a listing request. *)
Lemma missing_cases {A} (env : Env) (dir : Path) (detail : string) :
  stat (fs env) dir = None ->
  (exists_ (fs env) dir = Ok false /\
   @missing A env dir detail = Raise (HTTPException 404 detail)) \/
  (exists e, exists_ (fs env) dir = Raise e /\
   @missing A env dir detail = Raise (HTTPException 500 (exc_str e))).
Proof.
  intros Hs. unfold missing.
  destruct (exists_None _ _ Hs) as [H|H]; rewrite H; [left | right]; eauto.
Qed.

End Outcomes.





(** X5.  While the media root is not configured, the two listing
    endpoints and the file endpoint answer 500 with the configuration
    message, whatever the request; the slideshow page of a valid media type
    still answers 200, with the same message shown as an error. *)
Theorem unconfigured_root_responses
        (env : Env) (path : option string) (media_type : option string)
        (file_path slideshow_type : string) (rand : nat -> nat)
        (randomize : bool) :
  MEDIA_ROOT env = None ->
  let e := HTTPException 500
    "Media root not configured. Set MEDIA_ROOT environment variable or use --media-root CLI argument." in
  list_directories env path = Raise e /\
  list_media env path media_type = Raise e /\
  serve_media env file_path = Raise e /\
  (slideshow_type = "images" \/ slideshow_type = "videos" ->
   slideshow_page env rand slideshow_type path randomize =
     Ok (mkHTMLResponse (ErrorMessage e))).
Proof.
  intros Hn e.
  unfold list_directories, list_media, serve_media, slideshow_page,
    generate_slideshow_html, get_media_root.
  rewrite Hn. cbn [bind http_errors].
  repeat (split; [reflexivity|]).
  intros Hm.
  assert (Hm' : Str.mem slideshow_type ["images"; "videos"] = true).
  { apply mem_In. simpl. destruct Hm; auto. }
  now rewrite Hm'.
Qed.

Lemma unconfigured_root_responses_witness :
  status (list_media (mkEnv None (fs media_env)) None None) = 500 /\
  status (serve_media (mkEnv None (fs media_env)) "b.png") = 500 /\
  status (slideshow_page (mkEnv None (fs media_env)) (fun _ => 0)
                         "images" None false) = 200.
Proof.
  destruct (unconfigured_root_responses
              (mkEnv None (fs media_env)) None None "b.png" "images"
              (fun _ => 0) false eq_refl) as (_ & H2 & H3 & H4).
  rewrite H2, H3, (H4 (or_introl eq_refl)). repeat split.
Defined.

(** X6.  When the path names something that exists but is not a
    directory, the two listing endpoints answer 400, while the slideshow
    page, which does not test for a directory, answers 200 with the
    enumeration error shown in the page. *)
Theorem slideshow_of_a_file_is_an_error_page
        (env : Env) (r : string) (path : option string)
        (slideshow_type : string) (rand : nat -> nat) (randomize : bool) :
  MEDIA_ROOT env = Some r ->
  let dir := target_dir (parse r) path in
  exists_ (fs env) dir = Ok true ->
  is_dir (fs env) dir = Ok false ->
  slideshow_type = "images" \/ slideshow_type = "videos" ->
  slideshow_page env rand slideshow_type path randomize =
    Ok (mkHTMLResponse
          (ErrorMessage (OSError NotADirectoryError (str dir)))) /\
  list_media env path (Some slideshow_type) =
    Raise (HTTPException 400 "Path is not a directory") /\
  list_directories env path =
    Raise (HTTPException 400 "Path is not a directory").
Proof.
  intros Hr dir He Hd Hm.
  assert (Hm' : Str.mem slideshow_type ["images"; "videos"] = true).
  { apply mem_In. simpl. destruct Hm; auto. }
  unfold slideshow_page, generate_slideshow_html, list_media,
    list_directories.
  rewrite Hm', (get_media_root_configured env r Hr). cbn [negb bind].
  rewrite target_dir_or_empty. fold dir. rewrite He, Hd. cbn [negb bind].
  split; [|split; reflexivity].
  apply exists_true in He. destruct He as [n Hs].
  rewrite (is_dir_Some _ _ _ Hs) in Hd. unfold iterdir, os_stat. rewrite Hs.
  destruct n as [| |f es]; try discriminate; reflexivity.
Qed.

Lemma slideshow_of_a_file_is_an_error_page_witness :
  slideshow_page media_env (fun _ => 0) "images" (Some "b.png") true =
    Ok (mkHTMLResponse
          (ErrorMessage (OSError NotADirectoryError "/media/b.png"))) /\
  list_media media_env (Some "b.png") (Some "images") =
    Raise (HTTPException 400 "Path is not a directory").
Proof.
  destruct (slideshow_of_a_file_is_an_error_page
              media_env "/media" (Some "b.png") "images" (fun _ => 0) true
              eq_refl eq_refl eq_refl (or_introl eq_refl)) as (H1 & H2 & _).
  split; [exact H1 | exact H2].
Defined.

(** ** One directory seen through several endpoints *)

Section AcrossEndpoints.

Lemma selected_None_images l : selected None "images" l = images_in l.
Proof.
  apply filter_ext. intros [n c]. cbn [fst snd]. destruct c; try reflexivity.
  rewrite classified_images. unfold is_media_file. cbn [is_str].
  destruct (Str.mem (extension n) IMG_EXTS); [reflexivity|].
  apply andb_false_r.
Qed.

Lemma selected_None_videos l : selected None "videos" l = videos_in l.
Proof.
  apply filter_ext. intros [n c]. cbn [fst snd]. destruct c; try reflexivity.
  rewrite classified_videos. unfold is_media_file. cbn [is_str].
  destruct (Str.mem (extension n) IMG_EXTS) eqn:Ei.
  - now rewrite (mem_img_not_vid _ Ei).
  - cbn [negb orb andb]. apply andb_diag.
Qed.

Lemma passing_images l : passing (Some "images") l = images_in l.
Proof.
  apply filter_ext. intros [n c]. cbn [fst snd]. now destruct c.
Qed.

Lemma passing_videos l : passing (Some "videos") l = videos_in l.
Proof.
  apply filter_ext. intros [n c]. cbn [fst snd]. now destruct c.
Qed.

Lemma media_entries_length env dir l :
  length (media_entries env dir l) = length l.
Proof. unfold media_entries. apply length_map. Qed.

End AcrossEndpoints.

(** X7.  Filtering is restricting: when the unfiltered media listing of a
    path succeeds, the listing filtered by [images] holds the same images
    and no videos, and the listing filtered by [videos] holds the same
    videos and no images. *)
Theorem filtered_listing_is_a_restriction
        (env : Env) (r : string) (path : option string)
        (resp : MediaListing) :
  MEDIA_ROOT env = Some r ->
  wf_fs (fs env) ->
  list_media env path None = Ok resp ->
  list_media env path (Some "images") =
    Ok (mkMediaListing (media_listing_path resp) (images resp) []) /\
  list_media env path (Some "videos") =
    Ok (mkMediaListing (media_listing_path resp) [] (videos resp)).
Proof.
  intros Hr Hw. rewrite !(list_media_closed env r Hr Hw).
  destruct (stat (fs env) (target_dir (parse r) path))
    as [[| |[e|] es]|]; no_listing.
  unfold media_listing_of. intros H. inversion H. cbn [media_listing_path
    images videos].
  rewrite selected_images_images, selected_images_videos,
          selected_videos_videos, selected_videos_images,
          selected_None_images, selected_None_videos.
  split; reflexivity.
Qed.

Lemma filtered_listing_is_a_restriction_witness :
  list_media media_env (Some "A") (Some "videos") =
    Ok (mkMediaListing "A" [] [mkMediaEntry "z.mp4" "A/z.mp4"]).
Proof.
  exact (proj2 (filtered_listing_is_a_restriction
                  media_env "/media" (Some "A")
                  (mkMediaListing "A"
                     [mkMediaEntry "x.jpg" "A/x.jpg";
                      mkMediaEntry "y.jpg" "A/y.jpg"]
                     [mkMediaEntry "z.mp4" "A/z.mp4"])
                  eq_refl media_env_wf eq_refl)).
Defined.

(** X8.  The counts of a directory listing are the lengths of the media
    listing of the same path: whenever [list_directories] succeeds, so does
    the unfiltered [list_media], with as many images and videos as the
    listing announces. *)
Theorem listing_counts_are_media_lengths
        (env : Env) (r : string) (path : option string) (l : Listing) :
  MEDIA_ROOT env = Some r ->
  wf_fs (fs env) ->
  list_directories env path = Ok l ->
  exists m,
    list_media env path None = Ok m /\
    image_count l = length (images m) /\
    video_count l = length (videos m).
Proof.
  intros Hr Hw. rewrite (list_directories_closed env r Hr Hw),
                        (list_media_closed env r Hr Hw).
  destruct (stat (fs env) (target_dir (parse r) path))
    as [[| |[e|] es]|]; no_listing.
  unfold listing_of, media_listing_of.
  destruct (first_fatal (sort_entries es)) as [[n e]|]; [discriminate|].
  intros H. inversion H. eexists. split; [reflexivity|].
  cbn [image_count video_count images videos].
  rewrite !media_entries_length, selected_None_images, selected_None_videos.
  unfold images_in, videos_in.
  rewrite (media_in_perm IMG_EXTS _ _ (sort_entries_perm es)),
          (media_in_perm VID_EXTS _ _ (sort_entries_perm es)).
  split; reflexivity.
Qed.

Lemma listing_counts_are_media_lengths_witness :
  exists m,
    list_media media_env None None = Ok m /\
    1 = length (images m) /\ 0 = length (videos m).
Proof.
  exact (listing_counts_are_media_lengths
           media_env "/media" None
           (mkListing "" [mkDirectoryEntry "A" "A" 2 1] 1 0)
           eq_refl media_env_wf eq_refl).
Defined.

(** X9.  The unshuffled slideshow of a media type shows exactly the
    entries, in the same order, that the media listing of the same path
    returns for that type. *)
Theorem slideshow_shows_the_listed_media
        (env : Env) (r : string) (path : option string)
        (m : MediaListing) (rand : nat -> nat) :
  MEDIA_ROOT env = Some r ->
  wf_fs (fs env) ->
  list_media env path None = Ok m ->
  slideshow_page env rand "images" path false =
    Ok (mkHTMLResponse (SlideshowDocument (images m) "images")) /\
  slideshow_page env rand "videos" path false =
    Ok (mkHTMLResponse (SlideshowDocument (videos m) "videos")).
Proof.
  intros Hr Hw. rewrite (list_media_closed env r Hr Hw).
  unfold slideshow_page. cbn [Str.mem existsb String.eqb Ascii.eqb
                              Bool.eqb orb negb].
  rewrite !(generate_slideshow_html_closed env r Hr Hw),
          target_dir_or_empty.
  destruct (stat (fs env) (target_dir (parse r) path))
    as [[| |[e|] es]|]; no_listing.
  unfold media_listing_of, slideshow_of. intros H. inversion H.
  cbn [images videos].
  now rewrite passing_images, passing_videos, selected_None_images,
              selected_None_videos.
Qed.

Lemma slideshow_shows_the_listed_media_witness :
  slideshow_page media_env (fun _ => 0) "images" (Some "A") false =
    Ok (mkHTMLResponse
          (SlideshowDocument [mkMediaEntry "x.jpg" "A/x.jpg";
                              mkMediaEntry "y.jpg" "A/y.jpg"] "images")).
Proof.
  exact (proj1 (slideshow_shows_the_listed_media
                  media_env "/media" (Some "A")
                  (mkMediaListing "A"
                     [mkMediaEntry "x.jpg" "A/x.jpg";
                      mkMediaEntry "y.jpg" "A/y.jpg"]
                     [mkMediaEntry "z.mp4" "A/z.mp4"])
                  (fun _ => 0) eq_refl media_env_wf eq_refl)).
Defined.

(** ** Shuffling rearranges *)

Section ShufflePermutes.

Context {A : Type}.

Lemma set_item_perm (l : list A) (i : nat) (a v : A) :
  nth_error l i = Some a -> Permutation (v :: l) (a :: set_item l i v).
Proof.
  revert i. induction l as [|h l IH]; intros i H.
  - destruct i; discriminate.
  - destruct i as [|i]; simpl in *.
    + inversion H; subst. apply perm_swap.
    + eapply Permutation_trans; [apply perm_swap|].
      eapply Permutation_trans; [apply perm_skip, (IH _ H)|].
      apply perm_swap.
Qed.

Lemma nth_error_set_item_same (l : list A) (i : nat) (a v : A) :
  nth_error l i = Some a -> nth_error (set_item l i v) i = Some v.
Proof.
  revert i. induction l as [|h l IH]; intros i H.
  - destruct i; discriminate.
  - destruct i as [|i]; simpl in *; [reflexivity | now apply IH].
Qed.

Lemma nth_error_set_item_other (l : list A) (i j : nat) (v : A) :
  i <> j -> nth_error (set_item l i v) j = nth_error l j.
Proof.
  revert i j. induction l as [|h l IH]; intros i j H.
  - destruct i; reflexivity.
  - destruct i as [|i], j as [|j]; simpl; try reflexivity.
    + now elim H.
    + apply IH. intros ->. now apply H.
Qed.

Lemma swap_perm (l : list A) (i j : nat) : Permutation (swap l i j) l.
Proof.
  unfold swap. destruct (nth_error l i) as [a|] eqn:Ea; [|reflexivity].
  destruct (nth_error l j) as [b|] eqn:Eb; [|reflexivity].
  assert (Hj : nth_error (set_item l i b) j = Some b).
  { destruct (Nat.eq_dec i j) as [<-|Hne].
    - eapply nth_error_set_item_same; eassumption.
    - now rewrite nth_error_set_item_other. }
  apply Permutation_sym, (Permutation_cons_inv (a := b)).
  eapply Permutation_trans; [apply (set_item_perm _ _ _ b Ea)|].
  apply (set_item_perm _ _ _ a Hj).
Qed.

Lemma shuffle_perm (rand : nat -> nat) (l : list A) :
  Permutation (shuffle rand l) l.
Proof.
  unfold shuffle. generalize (length l - 1) as i. generalize 0 as k.
  intros k i. revert k l. induction i as [|i IH]; intros k l; simpl;
    [reflexivity|].
  eapply Permutation_trans; [apply IH | apply swap_perm].
Qed.

End ShufflePermutes.

(** X10.  Asking for a shuffled slideshow changes nothing but the order:
    whatever the random draws, the page shows a rearrangement of the
    entries of the unshuffled page (the same entries, each as often), and
    is the same kind of page. *)
Theorem shuffled_slideshow_is_a_rearrangement
        (env : Env) (rand rand' : nat -> nat) (media_type path : string) :
  Permutation
    (page_media (generate_slideshow_html env rand media_type path true))
    (page_media (generate_slideshow_html env rand' media_type path false)) /\
  (forall e,
     generate_slideshow_html env rand media_type path true = ErrorMessage e <->
     generate_slideshow_html env rand' media_type path false = ErrorMessage e)
  /\
  (generate_slideshow_html env rand media_type path true = DirectoryNotFound
   <->
   generate_slideshow_html env rand' media_type path false = DirectoryNotFound).
Proof.
  unfold generate_slideshow_html.
  destruct (get_media_root env) as [media_root|e0]; cbn [bind].
  2:{ split; [reflexivity|]. split; [intros e|]; reflexivity. }
  destruct (exists_ _ _) as [[|]|e0]; cbn [bind negb].
  2:{ split; [reflexivity|]. split; [intros e|]; reflexivity. }
  2:{ split; [reflexivity|]. split; [intros e|]; reflexivity. }
  destruct (iterdir _ _) as [items|e0]; cbn [bind].
  2:{ split; [reflexivity|]. split; [intros e|]; reflexivity. }
  destruct (for_each _ _ _) as [media_files|e0]; cbn [bind].
  2:{ split; [reflexivity|]. split; [intros e|]; reflexivity. }
  split; [apply shuffle_perm|].
  split; [intros e|]; split; discriminate.
Qed.

(** ** More on serving files *)

Section PrefixCheck.

Lemma prefix_app (a s : string) : String.prefix a (a ++ s) = true.
Proof.
  induction a as [|c a IH]; simpl; [now destruct s|].
  destruct (ascii_dec c c) as [_|H]; [exact IH | now elim H].
Qed.

Lemma join_app (a b : list string) :
  exists s, Str.join "/" (a ++ b) = (Str.join "/" a ++ s)%string.
Proof.
  unfold Str.join. induction a as [|x a IH].
  - exists (String.concat "/" b). reflexivity.
  - destruct a as [|y a].
    + destruct b as [|z b].
      * exists "". simpl. induction x; simpl; congruence.
      * exists ("/" ++ String.concat "/" (z :: b))%string. reflexivity.
    + destruct IH as [s IH]. exists s.
      change (String.concat "/" ((x :: y :: a) ++ b))
        with (x ++ "/" ++ String.concat "/" ((y :: a) ++ b))%string.
      rewrite IH.
      change (String.concat "/" (x :: y :: a))
        with (x ++ "/" ++ String.concat "/" (y :: a))%string.
      assert (Hassoc : forall u v w : string,
                 ((u ++ v) ++ w = u ++ (v ++ w))%string).
      { intros u v w. induction u; simpl; congruence. }
      now rewrite !Hassoc.
Qed.

(** A path under another prints with the other's print as a prefix. *)
Lemma startswith_under (p q : Path) :
  root p = "/" -> root q = "/" -> is_relative_to p q = true ->
  Str.startswith (str p) (str q) = true.
Proof.
  intros Hp Hq H. unfold is_relative_to in H. rewrite Hp, Hq in H.
  change (String.eqb "/" "/") with true in H. cbn [andb] in H.
  destruct (strip_prefix (parts q) (parts p)) as [rest|] eqn:E;
    [|discriminate].
  apply strip_prefix_Some in E.
  unfold Str.startswith, str. rewrite Hp, Hq, E.
  destruct (join_app (parts q) rest) as [s ->].
  change ("/" ++ (Str.join "/" (parts q) ++ s))%string
    with (String "/" (Str.join "/" (parts q) ++ s)).
  change ("/" ++ Str.join "/" (parts q))%string
    with (String "/" (Str.join "/" (parts q))).
  cbn [String.prefix].
  destruct (ascii_dec "/" "/") as [_|Hne]; [|now elim Hne].
  apply prefix_app.
Qed.

Lemma normalize_no_dotdot (segs acc : list string) :
  ~ In ".." acc -> ~ In ".." (normalize acc segs).
Proof.
  revert acc. induction segs as [|s segs IH]; intros acc H; simpl.
  - now rewrite <- in_rev.
  - destruct (String.eqb s "..") eqn:E.
    + apply IH. intros Hin. apply H. destruct acc; [contradiction|].
      now right.
    + apply IH. intros [->|Hin]; [|contradiction].
      now rewrite String.eqb_refl in E.
Qed.

End PrefixCheck.

(** X11.  The containment check of [serve_media] never turns away a path
    that really is under the media root: when [resolve] accepts both paths
    and the resolved target is the resolved root or a descendant of it, the
    answer is never 403.  It is what the lookup of the target gives: a
    regular file is served (for a request in ASCII, with the content type
    of the table for the request's extension), anything else that exists
    is 400, and a missing target is 404 when [exists] answers [False] and
    500 with the text of the error when [exists] raises it. *)
Theorem serve_media_accepts_what_is_under_the_root
        (env : Env) (r file_path : string) (target root_resolved : Path) :
  MEDIA_ROOT env = Some r ->
  Path_resolve (fs env) (div (parse r) file_path) = Ok target ->
  Path_resolve (fs env) (parse r) = Ok root_resolved ->
  is_relative_to target root_resolved = true ->
  String.length (str target) < PATH_MAX ->
  status (serve_media env file_path) <> 403 /\
  match stat (fs env) target with
  | None =>
      serve_media env file_path =
      match exists_ (fs env) target with
      | Raise e => Raise (HTTPException 500 (exc_str e))
      | Ok _ => Raise (HTTPException 404 "File not found")
      end
  | Some RegFile =>
      exists content_type,
        serve_media env file_path =
          Ok (mkFileResponse target content_type) /\
        (Str.isascii file_path = true ->
         content_type = dict_get content_types (extension file_path)
                                 "application/octet-stream")
  | Some _ =>
      serve_media env file_path = Raise (HTTPException 400 "Not a file")
  end.
Proof.
  intros Hr Ht Hroot Hu _.
  apply resolved_no_NUL in Ht. destruct Ht as [Hn1 ->].
  apply resolved_no_NUL in Hroot. destruct Hroot as [Hn2 ->].
  pose proof (serve_media_cases env r file_path Hr) as Hc.
  cbv zeta in Hc. rewrite Hn1, Hn2 in Hc. cbn [orb] in Hc.
  rewrite (startswith_under (resolve (fs env) (div (parse r) file_path))
             (resolve (fs env) (parse r)) eq_refl eq_refl Hu) in Hc.
  cbn [negb] in Hc.
  rewrite Hc. split.
  - destruct (stat (fs env) _) as [[| |f es]|]; try discriminate.
    unfold missing. destruct (exists_ _ _); discriminate.
  - destruct (stat (fs env) _) as [[| |f es]|]; try reflexivity.
    eexists. split; [reflexivity|]. intros _. reflexivity.
Qed.

Lemma serve_media_accepts_what_is_under_the_root_witness :
  serve_media media_env "A/../A/./x.jpg" =
    Ok (mkFileResponse (mkPath "/" ["media"; "A"; "x.jpg"]) "image/jpeg") /\
  serve_media media_env "A" = Raise (HTTPException 400 "Not a file") /\
  serve_media media_env ("A/" ++ Str.repeat "y" 256) =
    Raise (HTTPException 500
             (exc_str (OSError ENAMETOOLONG
                         ("/media/A/" ++ Str.repeat "y" 256)))).
Proof.
  assert (Hlen : forall p, Nat.ltb (String.length (str p)) PATH_MAX = true ->
                           String.length (str p) < PATH_MAX).
  { intros p. apply Nat.ltb_lt. }
  split; [|split].
  - destruct (proj2 (serve_media_accepts_what_is_under_the_root
                       media_env "/media" "A/../A/./x.jpg"
                       (mkPath "/" ["media"; "A"; "x.jpg"])
                       (mkPath "/" ["media"])
                       eq_refl eq_refl eq_refl eq_refl
                       (Hlen (mkPath "/" ["media"; "A"; "x.jpg"]) eq_refl)))
      as (content_type & Hserved & Htype).
    rewrite Hserved, (Htype eq_refl). reflexivity.
  - exact (proj2 (serve_media_accepts_what_is_under_the_root
                    media_env "/media" "A"
                    (mkPath "/" ["media"; "A"]) (mkPath "/" ["media"])
                    eq_refl eq_refl eq_refl eq_refl
                    (Hlen (mkPath "/" ["media"; "A"]) eq_refl))).
  - exact (proj2 (serve_media_accepts_what_is_under_the_root
                    media_env "/media" ("A/" ++ Str.repeat "y" 256)
                    (mkPath "/" ["media"; "A"; Str.repeat "y" 256])
                    (mkPath "/" ["media"])
                    eq_refl eq_refl eq_refl eq_refl
                    (Hlen (mkPath "/" ["media"; "A"; Str.repeat "y" 256])
                          eq_refl))).
Defined.

(** X12.  What [serve_media] hands out is always an existing regular
    file, named by an absolute path without [..] segments whose text starts
    with the text of the resolved media root; a directory is never
    streamed. *)
Theorem serve_media_only_streams_regular_files
        (env : Env) (file_path : string) (resp : FileResponse) :
  serve_media env file_path = Ok resp ->
  is_file (fs env) (file resp) = Ok true /\
  is_dir (fs env) (file resp) = Ok false /\
  root (file resp) = "/" /\
  ~ In ".." (parts (file resp)) /\
  exists r, MEDIA_ROOT env = Some r /\
            file resp = resolve (fs env) (div (parse r) file_path) /\
            Str.startswith (str (file resp))
                           (str (resolve (fs env) (parse r))) = true.
Proof.
  destruct (MEDIA_ROOT env) as [r|] eqn:Hr.
  2:{ unfold serve_media, get_media_root. rewrite Hr. discriminate. }
  pose proof (serve_media_cases env r file_path Hr) as Hc.
  cbv zeta in Hc. rewrite Hc.
  destruct (_ || _); [discriminate|].
  destruct (Str.startswith _ _) eqn:Es; [|discriminate]. cbn [negb].
  destruct (stat (fs env) _) as [[| |f es]|] eqn:Hs; try discriminate.
  2:{ unfold missing. destruct (exists_ _ _); discriminate. }
  intros H. inversion H. cbn [file].
  split; [now rewrite (is_file_Some _ _ _ Hs)|].
  split; [now rewrite (is_dir_Some _ _ _ Hs)|].
  split; [reflexivity|]. split.
  { cbn [resolve parts]. apply normalize_no_dotdot. intros []. }
  exists r. repeat split; assumption.
Qed.

Lemma serve_media_only_streams_regular_files_witness :
  is_file (fs media_env) (mkPath "/" ["media"; "b.png"]) = Ok true /\
  ~ In ".." ["media"; "b.png"].
Proof.
  destruct (serve_media_only_streams_regular_files
              media_env "A/../b.png"
              (mkFileResponse (mkPath "/" ["media"; "b.png"]) "image/png")
              eq_refl) as (H1 & _ & _ & H4 & _).
  split; [exact H1 | exact H4].
Defined.

(** ** Printing and parsing paths *)

Section PrintParse.

Lemma split_pieces_no_sep (sep : ascii) (s : string) :
  Forall (fun x => Str.contains sep x = false) (Str.split sep s).
Proof.
  induction s as [|c s IH]; simpl; [repeat constructor|].
  destruct (Ascii.eqb c sep) eqn:E; [constructor; [reflexivity | exact IH]|].
  destruct (Str.split sep s) as [|h t]; inversion IH; subst;
    constructor; simpl; rewrite ?E; auto.
Qed.

Lemma segments_clean (s : string) : Forall clean_segment (segments s).
Proof.
  unfold segments. apply Forall_forall. intros x Hx.
  apply filter_In in Hx. destruct Hx as [Hin Hf].
  apply andb_true_iff in Hf. destruct Hf as [H1 H2].
  apply negb_true_iff in H1, H2. apply String.eqb_neq in H1, H2.
  pose proof (split_pieces_no_sep slash s) as Hp.
  rewrite Forall_forall in Hp. repeat split; auto.
Qed.

Lemma split_join (segs : list string) :
  segs <> [] -> Forall (fun x => Str.contains slash x = false) segs ->
  Str.split slash (Str.join "/" segs) = segs.
Proof.
  induction segs as [|x segs IH]; [contradiction|]. intros _ H.
  inversion H as [|? ? Hx Hs]; subst. destruct segs as [|y t].
  - now apply split_no_sep.
  - change (Str.join "/" (x :: y :: t))
      with (x ++ String slash (Str.join "/" (y :: t)))%string.
    rewrite split_app, (split_no_sep _ _ Hx), IH; [reflexivity| |assumption].
    discriminate.
Qed.

Lemma filter_all {A} (f : A -> bool) (l : list A) :
  Forall (fun x => f x = true) l -> filter f l = l.
Proof.
  intros H. induction H as [|x l Hx Hl IH]; simpl; [reflexivity|].
  now rewrite Hx, IH.
Qed.

Lemma segments_join (segs : list string) :
  Forall clean_segment segs -> segments (Str.join "/" segs) = segs.
Proof.
  intros H. destruct segs as [|x t]; [reflexivity|].
  unfold segments. rewrite split_join.
  - apply filter_all. eapply Forall_impl; [|exact H].
    intros s (H1 & H2 & _). apply String.eqb_neq in H1, H2.
    now rewrite H1, H2.
  - discriminate.
  - eapply Forall_impl; [|exact H]. now intros s (_ & _ & H3).
Qed.

Lemma count_leading_clean (x s : string) :
  clean_segment x -> Str.count_leading slash (x ++ s) = 0.
Proof.
  intros (H1 & _ & H3). destruct x as [|c x]; [now elim H1|].
  simpl in *. apply orb_false_iff in H3. destruct H3 as [H3 _].
  now rewrite H3.
Qed.

Lemma count_leading_join (segs : list string) :
  Forall clean_segment segs ->
  Str.count_leading slash (Str.join "/" segs) = 0.
Proof.
  intros H. destruct segs as [|x t]; [reflexivity|].
  destruct (join_app [x] t) as [s Hs]. cbn [app] in Hs. rewrite Hs.
  apply count_leading_clean. now inversion H.
Qed.

(** Parsing what [str] prints gives the path back. *)
Lemma parse_str (p : Path) :
  root p = "" \/ root p = "/" \/ root p = "//" ->
  Forall clean_segment (parts p) ->
  parse (str p) = p.
Proof.
  destruct p as [rt ps]. cbn [root parts]. intros Hr Hc.
  unfold parse, str, root_of. cbn [root parts].
  destruct Hr as [->|[->| ->]].
  - destruct ps as [|x t]; [reflexivity|].
    change ("" ++ Str.join "/" (x :: t))%string with (Str.join "/" (x :: t)).
    now rewrite (count_leading_join _ Hc), (segments_join _ Hc).
  - change ("/" ++ Str.join "/" ps)%string
      with (String slash (Str.join "/" ps)).
    cbn [Str.count_leading]. change (Ascii.eqb slash slash) with true.
    cbn iota. rewrite (count_leading_join _ Hc).
    f_equal. unfold segments. cbn [Str.split].
    change (Ascii.eqb slash slash) with true. cbn iota. cbn [filter].
    change (negb ("" =? "") && negb ("" =? "."))%string with false.
    cbn iota. exact (segments_join _ Hc).
  - change ("//" ++ Str.join "/" ps)%string
      with (String slash (String slash (Str.join "/" ps))).
    cbn [Str.count_leading]. change (Ascii.eqb slash slash) with true.
    cbn iota. rewrite (count_leading_join _ Hc).
    f_equal. unfold segments. cbn [Str.split].
    change (Ascii.eqb slash slash) with true. cbn iota. cbn [filter].
    change (negb ("" =? "") && negb ("" =? "."))%string with false.
    cbn iota. exact (segments_join _ Hc).
Qed.

Lemma or_empty_Some (s : string) : or_empty (Some s) = s.
Proof.
  unfold or_empty. destruct (String.eqb s "") eqn:E; [|reflexivity].
  apply String.eqb_eq in E. now subst.
Qed.

(** The target of a request is the root joined with the parsed path; an
    absent or empty path adds nothing. *)
Lemma target_dir_join (R : Path) (path : option string) :
  target_dir R path = joinpath R (parse (or_empty path)).
Proof.
  unfold target_dir, div, truthy.
  assert (Hempty : joinpath R (parse "") = R).
  { destruct R as [rt ps]. unfold joinpath. cbn. now rewrite app_nil_r. }
  destruct path as [s|]; [|cbn [or_empty]; now rewrite Hempty].
  rewrite or_empty_Some. destruct (String.eqb s "") eqn:E; [|reflexivity].
  apply String.eqb_eq in E. subst. now rewrite Hempty.
Qed.

Lemma target_dir_clean (r : string) (path : option string) :
  Forall clean_segment (parts (target_dir (parse r) path)) /\
  (root (target_dir (parse r) path) = "" \/
   root (target_dir (parse r) path) = "/" \/
   root (target_dir (parse r) path) = "//").
Proof.
  rewrite target_dir_join. unfold joinpath.
  destruct (String.eqb (root (parse (or_empty path))) ""); cbn [root parts].
  - split; [|apply root_of_cases].
    apply Forall_app. split; apply segments_clean.
  - split; [apply segments_clean | apply root_of_cases].
Qed.

End PrintParse.

(** ** Following the paths of a response *)

Section FollowingPaths.

Variable env : Env.
Variable r : string.
Hypothesis configured : MEDIA_ROOT env = Some r.

(** Joining the [path] field of an entry back to the media root gives the
    entry. *)
Lemma navigate_back (path : option string) (n : string) :
  clean_segment n ->
  div (parse r) (path_field env (target_dir (parse r) path) n) =
  child (target_dir (parse r) path) n.
Proof.
  intros Hn. set (dir := target_dir (parse r) path).
  destruct (target_dir_clean r path) as [Hc Hroot]. fold dir in Hc, Hroot.
  assert (Hitem : Forall clean_segment (parts (child dir n))).
  { cbn [child parts]. apply Forall_app. split; [assumption|].
    now constructor. }
  unfold path_field.
  destruct (is_relative_to (child dir n) (parse r)) eqn:Erel.
  - destruct (relative_to_inside env r configured _ Erel) as [rest [Hp ->]].
    unfold div. rewrite parse_str.
    + unfold is_relative_to in Erel. apply andb_true_iff in Erel.
      destruct Erel as [Er _]. apply String.eqb_eq in Er.
      unfold joinpath. cbn [root parts String.eqb].
      rewrite <- Hp, <- Er. reflexivity.
    + now left.
    + cbn [parts]. rewrite Hp in Hitem. apply Forall_app in Hitem. tauto.
  - rewrite (relative_to_outside env r configured _ Erel).
    pose proof (outside_is_anchored r path n Erel) as Ha.
    unfold div. rewrite parse_str; [|tauto|assumption].
    unfold joinpath. fold dir in Ha.
    destruct Ha as [Ha|Ha]; rewrite Ha; reflexivity.
Qed.

Lemma navigate_back_target (path : option string) (n : string) :
  clean_segment n ->
  target_dir (parse r) (Some (path_field env (target_dir (parse r) path) n)) =
  child (target_dir (parse r) path) n.
Proof.
  intros Hn. rewrite target_dir_join, or_empty_Some.
  now apply navigate_back.
Qed.

End FollowingPaths.

Section Resolving.

Lemma trail_walk (t : node) acc anc cur :
  trail t acc anc cur -> walk [] t (rev acc) = Some (anc, cur).
Proof.
  induction 1 as [|acc anc f es s c Ht IH Hs Hf]; [reflexivity|].
  cbn [rev]. rewrite walk_app, IH. cbn [walk].
  apply String.eqb_neq in Hs. now rewrite Hs, Hf.
Qed.

(** Resolving [..] on paper agrees with resolving it on the way, when the
    way exists. *)
Lemma walk_normalize (t : node) (segs : list string) :
  forall acc anc cur res,
    trail t acc anc cur -> walk anc cur segs = Some res ->
    walk [] t (normalize acc segs) = Some res.
Proof.
  induction segs as [|s segs IH]; intros acc anc cur res Ht.
  - cbn [walk normalize]. intros H. inversion H; subst.
    now apply trail_walk.
  - cbn [walk normalize]. destruct cur as [| |f es]; try discriminate.
    destruct (String.eqb s "..") eqn:E.
    + destruct anc as [|p anc].
      * inversion Ht; subst. apply IH. constructor.
      * inversion Ht; subst. cbn [tl]. now apply IH.
    + destruct (find_entry s es) as [c|] eqn:Ef; [|discriminate].
      apply IH. constructor; try assumption.
      now apply String.eqb_neq.
Qed.

Lemma stat_resolve (fs : filesystem) (p : Path) (n : node) :
  stat fs p = Some n -> stat fs (resolve fs p) = Some n.
Proof.
  unfold stat at 1.
  destruct (walk [] (tree fs) (absolute_parts fs p)) as [[anc c]|] eqn:E;
    [|discriminate].
  intros H. inversion H; subst c.
  unfold stat, resolve, absolute_parts at 1. cbn [root parts String.eqb].
  change (Ascii.eqb "/" "/") with true. cbn iota.
  now rewrite (walk_normalize _ _ [] [] (tree fs) _ (trail_root _) E).
Qed.

Lemma normalize_clean_tail (b acc : list string) :
  ~ In ".." b -> normalize acc b = rev acc ++ b.
Proof.
  revert acc. induction b as [|s b IH]; intros acc H; cbn [normalize].
  - now rewrite app_nil_r.
  - destruct (String.eqb s "..") eqn:E.
    + apply String.eqb_eq in E. subst. exfalso. apply H. now left.
    + rewrite IH; [|intros Hin; apply H; now right].
      cbn [rev]. now rewrite <- app_assoc.
Qed.

Lemma normalize_app_clean (a b acc : list string) :
  ~ In ".." b -> normalize acc (a ++ b) = normalize acc a ++ b.
Proof.
  intros Hb. revert acc. induction a as [|s a IH]; intros acc.
  - cbn [app normalize]. now apply normalize_clean_tail.
  - cbn [app normalize]. destruct (String.eqb s ".."); apply IH.
Qed.

End Resolving.

Section ResponseEntries.

Lemma directory_entries_inv env dir l d :
  In d (directory_entries env dir l) ->
  exists n fault sub,
    In (n, Dir fault sub) l /\
    d = mkDirectoryEntry n (path_field env dir n)
          (fst (subdirectory_counts fault sub))
          (snd (subdirectory_counts fault sub)).
Proof.
  unfold directory_entries. intros H. apply in_flat_map in H.
  destruct H as [[n c] [Hin Hd]]. cbn [fst snd] in Hd.
  destruct c as [| |fault sub]; try contradiction.
  destruct Hd as [<-|[]]. eauto.
Qed.

Lemma media_entries_inv env dir l e :
  In e (media_entries env dir l) ->
  exists n c, In (n, c) l /\ e = mkMediaEntry n (path_field env dir n).
Proof.
  unfold media_entries. intros H. apply in_map_iff in H.
  destruct H as [[n c] [<- Hin]]. eauto.
Qed.

Lemma selected_inv mt cat l n c :
  In (n, c) (selected mt cat l) -> c = RegFile /\ In (n, c) l.
Proof.
  unfold selected. intros H. apply filter_In in H. destruct H as [Hin Hf].
  cbn [snd] in Hf. destruct c; try discriminate. now split.
Qed.

Lemma sort_entries_In (es : list (string * node)) e :
  In e (sort_entries es) <-> In e es.
Proof.
  split; apply Permutation_in; [|apply Permutation_sym];
    apply sort_entries_perm.
Qed.

Lemma clean_name (es : list (string * node)) n c :
  Forall clean_segment (map fst es) -> In (n, c) es -> clean_segment n.
Proof.
  intros H Hin. rewrite Forall_forall in H. apply H.
  change n with (fst (n, c)). now apply in_map.
Qed.

End ResponseEntries.

(** X13.  The [path] field of every entry of a directory listing or a
    media listing leads back to that entry: joined to the media root, as
    the next request does, it names the entry of that name inside the
    listed directory, whether the field is root-relative or absolute. *)
Theorem path_fields_lead_back_to_their_entries
        (env : Env) (r : string) (path : option string)
        (es : list (string * node)) :
  let dir := target_dir (parse r) path in
  MEDIA_ROOT env = Some r ->
  wf_fs (fs env) ->
  stat (fs env) dir = Some (Dir None es) ->
  Forall clean_segment (map fst es) ->
  (forall l, list_directories env path = Ok l ->
     Forall (fun d => target_dir (parse r) (Some (dir_path d)) =
                      child dir (dir_name d))
            (directories l)) /\
  (forall media_type m, list_media env path media_type = Ok m ->
     Forall (fun e => div (parse r) (media_path e) = child dir (media_name e))
            (images m ++ videos m)).
Proof.
  intros dir Hr Hw Hs Hc. split.
  - intros l. rewrite (list_directories_closed env r Hr Hw). fold dir.
    rewrite Hs. unfold listing_of.
    destruct (first_fatal (sort_entries es)) as [[m e]|]; [discriminate|].
    intros H. inversion H. cbn [directories]. apply Forall_forall.
    intros d Hd. apply directory_entries_inv in Hd.
    destruct Hd as (n & fault & sub & Hin & ->). cbn [dir_path dir_name].
    apply (navigate_back_target env r Hr). apply (proj1 (sort_entries_In _ _)) in Hin.
    eapply clean_name; eassumption.
  - intros mt m. rewrite (list_media_closed env r Hr Hw). fold dir.
    rewrite Hs. unfold media_listing_of. intros H. inversion H.
    cbn [images videos]. apply Forall_forall. intros e He.
    apply in_app_iff in He.
    assert (Hsel : exists cat, In e (media_entries env dir
                     (selected mt cat (sort_entries es)))).
    { destruct He; eauto. }
    destruct Hsel as [cat Hsel]. apply media_entries_inv in Hsel.
    destruct Hsel as (n & c & Hin & ->). cbn [media_path media_name].
    apply (navigate_back env r Hr). apply selected_inv in Hin.
    destruct Hin as [_ Hin]. apply (proj1 (sort_entries_In _ _)) in Hin.
    eapply clean_name; eassumption.
Qed.

Ltac solve_clean :=
  repeat constructor; try discriminate; try reflexivity.

Lemma path_fields_lead_back_to_their_entries_witness :
  Forall (fun d => target_dir (parse "/media") (Some (dir_path d)) =
                   child (parse "/secret") (dir_name d))
         [mkDirectoryEntry "keys" "/secret/keys" 0 1] /\
  Forall (fun d => target_dir (parse "/media") (Some (dir_path d)) =
                   child (parse "/media") (dir_name d))
         [mkDirectoryEntry "A" "A" 2 1].
Proof.
  split.
  - refine (proj1 (path_fields_lead_back_to_their_entries
                     media_env "/media" (Some "/secret")
                     [("plan.png", RegFile);
                      ("keys", Dir None [("k.mp4", RegFile)])]
                     eq_refl media_env_wf eq_refl _)
                  (mkListing "/secret"
                     [mkDirectoryEntry "keys" "/secret/keys" 0 1] 1 0)
                  eq_refl).
    solve_clean.
  - refine (proj1 (path_fields_lead_back_to_their_entries
                     media_env "/media" None media_root_entries
                     eq_refl media_env_wf eq_refl _)
                  (mkListing "" [mkDirectoryEntry "A" "A" 2 1] 1 0)
                  eq_refl).
    solve_clean.
Defined.

(** X14.  What a directory listing announces for a subdirectory is what a
    client finds by following the entry's [path]: the unfiltered media
    listing of that path has as many images and videos as announced; and
    when that listing fails (the subdirectory cannot be enumerated) the
    announced counts are zero. *)
Theorem announced_counts_are_found_by_following_the_path
        (env : Env) (r : string) (path : option string)
        (es : list (string * node)) (l : Listing) (d : DirectoryEntry) :
  let dir := target_dir (parse r) path in
  MEDIA_ROOT env = Some r ->
  wf_fs (fs env) ->
  stat (fs env) dir = Some (Dir None es) ->
  Forall clean_segment (map fst es) ->
  list_directories env path = Ok l ->
  In d (directories l) ->
  match list_media env (Some (dir_path d)) None with
  | Ok m => length (images m) = dir_image_count d /\
            length (videos m) = dir_video_count d
  | Raise _ => dir_image_count d = 0 /\ dir_video_count d = 0
  end.
Proof.
  intros dir Hr Hw Hs Hc.
  rewrite (list_directories_closed env r Hr Hw). fold dir. rewrite Hs.
  unfold listing_of.
  destruct (first_fatal (sort_entries es)) as [[m e]|]; [discriminate|].
  intros H Hd. inversion H as [Hl]. rewrite <- Hl in Hd.
  cbn [directories] in Hd. apply directory_entries_inv in Hd.
  destruct Hd as (n & fault & sub & Hin & ->).
  cbn [dir_path dir_image_count dir_video_count].
  apply (proj1 (sort_entries_In _ _)) in Hin.
  rewrite (list_media_closed env r Hr Hw). unfold dir.
  rewrite (navigate_back_target env r Hr path n
             (clean_name _ _ _ Hc Hin)). fold dir.
  destruct (dir_names_ok env Hw dir es Hs) as [Hnd Hdd].
  assert (Hn : n <> "..").
  { intros ->. apply Hdd. change ".." with (fst ("..", Dir fault sub)).
    now apply in_map. }
  rewrite (stat_child _ _ _ _ _ Hs Hn), (In_find_entry _ _ _ Hnd Hin).
  unfold media_listing_of, subdirectory_counts.
  destruct fault as [err|]; [split; reflexivity|].
  cbn [images videos fst snd].
  rewrite !media_entries_length, selected_None_images, selected_None_videos.
  unfold images_in, videos_in.
  rewrite (media_in_perm IMG_EXTS _ _ (sort_entries_perm sub)),
          (media_in_perm VID_EXTS _ _ (sort_entries_perm sub)).
  split; reflexivity.
Qed.

Lemma announced_counts_are_found_by_following_the_path_witness :
  match list_media media_env (Some "A") None with
  | Ok m => length (images m) = 2 /\ length (videos m) = 1
  | Raise _ => False
  end.
Proof.
  exact (announced_counts_are_found_by_following_the_path
           media_env "/media" None media_root_entries
           (mkListing "" [mkDirectoryEntry "A" "A" 2 1] 1 0)
           (mkDirectoryEntry "A" "A" 2 1)
           eq_refl media_env_wf eq_refl
           ltac:(solve_clean) eq_refl (or_introl eq_refl)).
Defined.

Section Fetching.

Lemma absolute_parts_joined (fs : filesystem) (R : Path)
      (segs : list string) :
  absolute_parts fs (mkPath (root R) (parts R ++ segs)) =
  absolute_parts fs R ++ segs.
Proof.
  unfold absolute_parts. cbn [root parts].
  destruct (String.eqb (root R) ""); [now rewrite app_assoc | reflexivity].
Qed.

(** Below the root, without [..], a path resolves below the resolved
    root. *)
Lemma resolve_below (fs : filesystem) (R : Path) (segs : list string) :
  ~ In ".." segs ->
  is_relative_to (resolve fs (mkPath (root R) (parts R ++ segs)))
                 (resolve fs R) = true.
Proof.
  intros H. unfold is_relative_to, resolve. cbn [root parts].
  rewrite absolute_parts_joined, (normalize_app_clean _ _ _ H),
          strip_prefix_app.
  reflexivity.
Qed.

End Fetching.

(** X15.  An entry that a media listing returns can be fetched whenever
    it resolves under the resolved media root: asking [serve_media] for
    the entry's [path] then succeeds and streams that very file (the entry
    of that name in the listed directory, resolved).  On a tree without
    links this is every entry of a listing asked for with a relative path
    that has no [..] segment. *)
Theorem listed_media_can_be_fetched
        (env : Env) (r : string) (path media_type : option string)
        (es : list (string * node)) (m : MediaListing) (e : MediaEntry)
        (target root_resolved : Path) :
  let dir := target_dir (parse r) path in
  MEDIA_ROOT env = Some r ->
  wf_fs (fs env) ->
  stat (fs env) dir = Some (Dir None es) ->
  Forall clean_segment (map fst es) ->
  list_media env path media_type = Ok m ->
  In e (images m ++ videos m) ->
  Path_resolve (fs env) (child dir (media_name e)) = Ok target ->
  Path_resolve (fs env) (parse r) = Ok root_resolved ->
  is_relative_to target root_resolved = true ->
  String.length (str target) < PATH_MAX ->
  serve_media env (media_path e) =
    Ok (mkFileResponse target
          (dict_get content_types (extension (media_path e))
                    "application/octet-stream")).
Proof.
  intros dir Hr Hw Hs Hc.
  rewrite (list_media_closed env r Hr Hw). fold dir. rewrite Hs.
  unfold media_listing_of. intros H He. inversion H as [Hm].
  rewrite <- Hm in He. cbn [images videos] in He.
  apply in_app_iff in He.
  assert (Hsel : exists cat, In e (media_entries env dir
                   (selected media_type cat (sort_entries es)))).
  { destruct He; eauto. }
  destruct Hsel as [cat Hsel]. apply media_entries_inv in Hsel.
  destruct Hsel as (n & c & Hin & ->). cbn [media_path media_name].
  intros Ht Hroot Hbelow _.
  apply resolved_no_NUL in Ht. destruct Ht as [Hn1 ->].
  apply resolved_no_NUL in Hroot. destruct Hroot as [Hn2 ->].
  apply selected_inv in Hin. destruct Hin as [-> Hin].
  apply (proj1 (sort_entries_In _ _)) in Hin.
  destruct (dir_names_ok env Hw dir es Hs) as [Hnd Hdd].
  assert (Hn : n <> "..").
  { intros ->. apply Hdd. change ".." with (fst ("..", RegFile)).
    now apply in_map. }
  pose proof (serve_media_cases env r (path_field env dir n) Hr) as Hcases.
  cbv zeta in Hcases. unfold dir in Hcases.
  rewrite (navigate_back env r Hr path n (clean_name _ _ _ Hc Hin))
    in Hcases.
  fold dir in Hcases. rewrite Hcases, Hn1, Hn2. cbn [orb].
  rewrite (startswith_under (resolve (fs env) (child dir n))
             (resolve (fs env) (parse r)) eq_refl eq_refl Hbelow).
  assert (Hst : stat (fs env) (resolve (fs env) (child dir n)) = Some RegFile).
  { apply stat_resolve.
    now rewrite (stat_child _ _ _ _ _ Hs Hn), (In_find_entry _ _ _ Hnd Hin). }
  now rewrite Hst.
Qed.

Lemma listed_media_can_be_fetched_witness :
  serve_media media_env "A/z.mp4" =
    Ok (mkFileResponse (mkPath "/" ["media"; "A"; "z.mp4"]) "video/mp4").
Proof.
  exact (listed_media_can_be_fetched
           media_env "/media" (Some "A") None album_entries
           (mkMediaListing "A"
              [mkMediaEntry "x.jpg" "A/x.jpg"; mkMediaEntry "y.jpg" "A/y.jpg"]
              [mkMediaEntry "z.mp4" "A/z.mp4"])
           (mkMediaEntry "z.mp4" "A/z.mp4")
           (mkPath "/" ["media"; "A"; "z.mp4"]) (mkPath "/" ["media"])
           eq_refl media_env_wf eq_refl ltac:(solve_clean) eq_refl
           ltac:(cbn; auto) eq_refl eq_refl eq_refl
           (proj1 (Nat.ltb_lt
                     (String.length (str (mkPath "/" ["media"; "A"; "z.mp4"])))
                     PATH_MAX) eq_refl)).
Defined.

(** ** Content types and the classifier *)

Section DottedNames.

Lemma image_content_types (ext : string) :
  Str.mem ext IMG_EXTS = true ->
  Str.startswith (dict_get content_types ext "application/octet-stream")
                 "image/" = true.
Proof.
  intros H. apply mem_In in H. unfold IMG_EXTS in H. simpl in H.
  repeat (destruct H as [<-|H]; [reflexivity|]). contradiction.
Qed.

Lemma video_content_types (ext : string) :
  Str.mem ext VID_EXTS = true ->
  Str.startswith (dict_get content_types ext "application/octet-stream")
                 "video/" = true.
Proof.
  intros H. apply mem_In in H. unfold VID_EXTS in H. simpl in H.
  repeat (destruct H as [<-|H]; [reflexivity|]). contradiction.
Qed.

End DottedNames.

(** X16.  For a requested path that ends in a name with a dot, the
    content type of a served file follows the classifier: a name classified
    as an image is served as [image/...], one classified as a video as
    [video/...], and any other name as [application/octet-stream]. *)
Theorem served_content_type_follows_the_classifier
        (env : Env) (prefix name : string) (resp : FileResponse) :
  Str.contains "."%char name = true ->
  serve_media env (prefix ++ name) = Ok resp ->
  (get_media_type name = Some "images" ->
   Str.startswith (content_type resp) "image/" = true) /\
  (get_media_type name = Some "videos" ->
   Str.startswith (content_type resp) "video/" = true) /\
  (get_media_type name = None ->
   content_type resp = "application/octet-stream").
Proof.
  intros Hdot.
  destruct (MEDIA_ROOT env) as [r|] eqn:Hr.
  2:{ unfold serve_media, get_media_root. rewrite Hr. discriminate. }
  pose proof (serve_media_cases env r (prefix ++ name) Hr) as Hc.
  cbv zeta in Hc. rewrite Hc.
  destruct (_ || _); [discriminate|].
  destruct (negb (Str.startswith _ _)); [discriminate|].
  destruct (stat (fs env) _) as [[| |f es]|]; try discriminate.
  2:{ unfold missing. destruct (exists_ _ _); discriminate. }
  intros H.
  assert (Hct : content_type resp =
                dict_get content_types (extension (prefix ++ name))
                         "application/octet-stream")
    by (now inversion H).
  rewrite Hct, (extension_of_dotted _ _ Hdot). clear H Hc Hct.
  unfold get_media_type.
  destruct (Str.mem (extension name) IMG_EXTS) eqn:Ei.
  - split; [intros _; now apply image_content_types|].
    split; discriminate.
  - destruct (Str.mem (extension name) VID_EXTS) eqn:Ev.
    + split; [discriminate|].
      split; [intros _; now apply video_content_types | discriminate].
    + split; [discriminate|]. split; [discriminate|]. intros _.
      apply dict_get_default. change (map fst content_types)
        with (IMG_EXTS ++ VID_EXTS).
      rewrite in_app_iff. apply mem_false in Ei, Ev. tauto.
Qed.

Lemma served_content_type_follows_the_classifier_witness :
  Str.startswith
    (content_type
       (mkFileResponse (mkPath "/" ["media"; "A"; "z.mp4"]) "video/mp4"))
    "video/" = true.
Proof.
  exact (proj1 (proj2 (served_content_type_follows_the_classifier
                         media_env "A/" "z.mp4"
                         (mkFileResponse (mkPath "/" ["media"; "A"; "z.mp4"])
                                         "video/mp4")
                         eq_refl eq_refl)) eq_refl).
Defined.

(** ** Request paths *)

(** X17.  The listing endpoints look at the parsed path only: two request
    paths that parse alike (an absent path and an empty one; [A], [A/],
    [./A] and [A//]) get the same directories, entries and counts, or fail
    with the same error; only the echoed [path] differs. *)
Theorem request_paths_that_parse_alike
        (env : Env) (p1 p2 media_type : option string) :
  parse (or_empty p1) = parse (or_empty p2) ->
  match list_directories env p1, list_directories env p2 with
  | Ok a, Ok b =>
      directories a = directories b /\
      image_count a = image_count b /\ video_count a = video_count b /\
      listing_path a = or_empty p1 /\ listing_path b = or_empty p2
  | Raise e1, Raise e2 => e1 = e2
  | _, _ => False
  end /\
  match list_media env p1 media_type, list_media env p2 media_type with
  | Ok a, Ok b =>
      images a = images b /\ videos a = videos b /\
      media_listing_path a = or_empty p1 /\
      media_listing_path b = or_empty p2
  | Raise e1, Raise e2 => e1 = e2
  | _, _ => False
  end.
Proof.
  intros H. unfold list_directories, list_media.
  destruct (get_media_root env) as [R|e]; cbn [bind].
  2:{ destruct e; cbn; auto. }
  rewrite !target_dir_join, H.
  destruct (exists_ _ _) as [[|]|e]; cbn [bind negb];
    [|cbn; auto|destruct e; cbn; auto].
  destruct (is_dir _ _) as [[|]|e]; cbn [bind negb];
    [|cbn; auto|destruct e; cbn; auto].
  destruct (iterdir _ _) as [items|e]; cbn [bind].
  2:{ destruct e; cbn; auto. }
  split.
  - destruct (for_each _ (list_directories_step env) _) as [st|e];
      [cbn; auto 6 | destruct e; cbn; auto].
  - destruct (for_each _ (list_media_step env media_type) _) as [st|e];
      [cbn; auto 6 | destruct e; cbn; auto].
Qed.

Lemma request_paths_that_parse_alike_witness :
  match list_media media_env (Some "A//") None,
        list_media media_env (Some "./A") None with
  | Ok a, Ok b => images a = images b /\ videos a = videos b /\
                  media_listing_path a = "A//" /\
                  media_listing_path b = "./A"
  | Raise e1, Raise e2 => e1 = e2
  | _, _ => False
  end.
Proof.
  exact (proj2 (request_paths_that_parse_alike
                  media_env (Some "A//") (Some "./A") None eq_refl)).
Defined.

Section AbsoluteRequestPaths.

Lemma target_dir_absolute (R : Path) (p : string) :
  Str.startswith p "/" = true -> target_dir R (Some p) = parse p.
Proof.
  intros H. rewrite target_dir_join, or_empty_Some. unfold joinpath.
  destruct p as [|c p]; [discriminate|].
  unfold Str.startswith in H. cbn [String.prefix] in H.
  destruct (ascii_dec "/" c) as [<-|]; [|discriminate].
  cbn [parse root]. unfold root_of. cbn [Str.count_leading].
  change (Ascii.eqb "/" slash) with true. cbn iota.
  destruct (Str.count_leading slash p) as [|[|k]]; reflexivity.
Qed.

Lemma directory_entries_summary env1 env2 dir l :
  map entry_summary (directory_entries env1 dir l) =
  map entry_summary (directory_entries env2 dir l).
Proof.
  unfold directory_entries. induction l as [|[n c] l IH]; [reflexivity|].
  cbn [flat_map fst snd]. rewrite !map_app, IH.
  destruct c; reflexivity.
Qed.

End AbsoluteRequestPaths.

(** X18.  An absolute [path] parameter makes the listing endpoints look at
    that absolute location, whatever the media root is: two servers on the
    same filesystem with different media roots return the same directory
    names and counts and the same media names for it, or fail alike. *)
Theorem absolute_request_path_ignores_the_media_root
        (env1 env2 : Env) (r1 r2 p : string) (media_type : option string) :
  fs env1 = fs env2 ->
  MEDIA_ROOT env1 = Some r1 ->
  MEDIA_ROOT env2 = Some r2 ->
  wf_fs (fs env1) ->
  Str.startswith p "/" = true ->
  match list_directories env1 (Some p), list_directories env2 (Some p) with
  | Ok a, Ok b =>
      map entry_summary (directories a) = map entry_summary (directories b) /\
      image_count a = image_count b /\ video_count a = video_count b
  | Raise e1, Raise e2 => e1 = e2
  | _, _ => False
  end /\
  match list_media env1 (Some p) media_type,
        list_media env2 (Some p) media_type with
  | Ok a, Ok b =>
      map media_name (images a) = map media_name (images b) /\
      map media_name (videos a) = map media_name (videos b)
  | Raise e1, Raise e2 => e1 = e2
  | _, _ => False
  end.
Proof.
  intros Hfs H1 H2 Hw Hp.
  assert (Hw2 : wf_fs (fs env2)) by (now rewrite <- Hfs).
  rewrite (list_directories_closed env1 r1 H1 Hw),
          (list_directories_closed env2 r2 H2 Hw2),
          (list_media_closed env1 r1 H1 Hw),
          (list_media_closed env2 r2 H2 Hw2).
  rewrite !(target_dir_absolute _ _ Hp), <- Hfs.
  destruct (stat (fs env1) (parse p)) as [[| |[e|] es]|].
  5:{ cbn [listing_of media_listing_of]. unfold missing. rewrite <- Hfs.
      destruct (exists_ (fs env1) (parse p)); cbn; auto. }
  1-3: cbn; auto.
  cbn. split.
  - destruct (first_fatal (sort_entries es)) as [[m e]|]; [reflexivity|].
    cbn [directories image_count video_count].
    split; [apply directory_entries_summary | split; reflexivity].
  - now rewrite !media_entries_names.
Qed.

Lemma absolute_request_path_ignores_the_media_root_witness :
  match list_directories media_env (Some "/secret"),
        list_directories (mkEnv (Some "/media/A") (fs media_env))
                         (Some "/secret") with
  | Ok a, Ok b =>
      map entry_summary (directories a) = map entry_summary (directories b) /\
      image_count a = image_count b /\ video_count a = video_count b
  | Raise e1, Raise e2 => e1 = e2
  | _, _ => False
  end.
Proof.
  exact (proj1 (absolute_request_path_ignores_the_media_root
                  media_env (mkEnv (Some "/media/A") (fs media_env))
                  "/media" "/media/A" "/secret" None
                  eq_refl eq_refl eq_refl media_env_wf eq_refl)).
Defined.

(** ** Start-up *)

(** X19.  [main] starts the server only with a media root that is not
    empty, so that in a started server [get_media_root] always succeeds;
    a value given to [--media-root] wins over the environment, also when
    it is empty; and a [PORT] environment variable that is not a number
    stops the start with an uncaught error, whatever the command line
    says. *)
Theorem main_starts_only_with_a_media_root
        (int : string -> option N) (environ : string -> option string)
        (argv : Args) :
  (forall media_root host port,
     main int environ argv = Serving media_root host port ->
     media_root <> "" /\
     (forall v, flag_media_root argv = Some v -> media_root = v) /\
     (flag_media_root argv = None ->
      environ "MEDIA_ROOT" = Some media_root) /\
     forall fs,
       get_media_root (env_of (main int environ argv) fs) =
       Ok (parse media_root)) /\
  (flag_media_root argv = Some "" ->
   forall media_root host port,
     main int environ argv <> Serving media_root host port) /\
  (forall s, environ "PORT" = Some s -> int s = None ->
             exists e, main int environ argv = Uncaught e).
Proof.
  unfold main. split; [|split].
  - intros media_root host port.
    destruct (match environ "PORT" with Some s => int s | None => _ end)
      as [default_port|]; [|discriminate].
    destruct (match flag_port argv with Some s => int s | None => _ end)
      as [port'|]; [|discriminate].
    destruct (flag_media_root argv) as [v|] eqn:Ef.
    + cbn [truthy or_empty]. destruct (String.eqb v "") eqn:Ev;
        [discriminate|].
      cbn [negb]. intros H. inversion H; subst.
      apply String.eqb_neq in Ev.
      split; [assumption|]. split; [intros w Hw; now inversion Hw|].
      split; [discriminate|]. reflexivity.
    + destruct (environ "MEDIA_ROOT") as [v|]; [|discriminate].
      cbn [truthy or_empty]. destruct (String.eqb v "") eqn:Ev;
        [discriminate|].
      cbn [negb]. intros H. inversion H; subst.
      apply String.eqb_neq in Ev.
      split; [assumption|]. split; [discriminate|].
      split; reflexivity.
  - intros Hf media_root host port. rewrite Hf.
    destruct (match environ "PORT" with Some s => int s | None => _ end);
      [|discriminate].
    destruct (match flag_port argv with Some s => int s | None => _ end);
      discriminate.
  - intros s Hs Hi. rewrite Hs, Hi. eauto.
Qed.
